(** * Review orchestrator of the pull-request review action (src/index.js)

    A shallow embedding of [run], the version of it that asks for a
    structured answer and posts inline comments (the first in the file): the
    context fetch, the completion call,
    the interpretation of the model's answer (positive verdict, brace
    delimited segments, fallback comment) and the comments it submits.

    JavaScript values are an inductive type, strings are sequences of
    UTF-16 code units, the regular expression and [JSON.parse] are
    executable functions, and the effects of the action (API requests, log
    lines, the reported outcome) are threaded through a small
    state-and-exception monad whose state is the trace of events. *)

From Stdlib Require Import List ZArith NArith Bool String Ascii Lia.
Import ListNotations.

Set Warnings "-register-all".

Local Open Scope N_scope.

(** ** Strings *)

(** A JavaScript string: a sequence of 16-bit code units. *)
Definition jsstring := list N.

(** The code units of an ASCII literal. *)
Definition str (s : string) : jsstring :=
  map N_of_ascii (list_ascii_of_string s).

(** The same, with every apostrophe standing for a double quote, so that
    JSON text can be written down as a literal. *)
Definition json (s : string) : jsstring :=
  map (fun c => if c =? 39 then 34 else c) (str s).

Fixpoint jsstring_eqb (a b : jsstring) : bool :=
  match a, b with
  | [], [] => true
  | x :: a', y :: b' => (x =? y) && jsstring_eqb a' b'
  | _, _ => false
  end.

(** ** Values *)

(** A number is kept as the decimal [m * 10^e] it was written as. *)
Inductive jsval : Type :=
| JUndef
| JNull
| JBool (b : bool)
| JNum (m e : Z)
| JStr (s : jsstring)
| JArr (items : list jsval)
| JObj (fields : list (jsstring * jsval)).

Inductive type_error : Type :=
| CannotReadProperty   (* property access on undefined or null *)
| NotAFunction         (* call of a value that is not callable *)
| CannotConvert.       (* an object without a usable toString *)

(** What can be thrown.  [RequestError] is what the API clients throw; its
    message is theirs. *)
Inductive error : Type :=
| SyntaxError
| TypeError (what : type_error)
| RequestError (message : jsstring).

(** The double nearest to [m * 10^e] is zero when [m] is, or when the
    decimal is at most half the least subnormal, 2^-1075 (the tie goes to
    the even neighbour, zero). *)
Definition num_is_zero (m e : Z) : bool :=
  ((m =? 0) || ((e <? 0) && (Z.abs m * 2 ^ 1075 <=? 10 ^ (- e))))%Z.

(** ToBoolean. *)
Definition truthy (v : jsval) : bool :=
  match v with
  | JUndef | JNull => false
  | JBool b => b
  | JNum m e => negb (num_is_zero m e)
  | JStr s => match s with [] => false | _ => true end
  | JArr _ | JObj _ => true
  end.

(** [a || b] *)
Definition js_or (a b : jsval) : jsval := if truthy a then a else b.

(** Own properties of a plain object, in insertion order. *)
Fixpoint obj_get (fs : list (jsstring * jsval)) (k : jsstring) : jsval :=
  match fs with
  | [] => JUndef
  | (k', v) :: fs' => if jsstring_eqb k' k then v else obj_get fs' k
  end.

Fixpoint obj_has (fs : list (jsstring * jsval)) (k : jsstring) : bool :=
  match fs with
  | [] => false
  | (k', _) :: fs' => jsstring_eqb k' k || obj_has fs' k
  end.

Fixpoint obj_set (fs : list (jsstring * jsval)) (k : jsstring) (v : jsval)
  : list (jsstring * jsval) :=
  match fs with
  | [] => [(k, v)]
  | (k', v') :: fs' =>
      if jsstring_eqb k' k then (k', v) :: fs' else (k', v') :: obj_set fs' k v
  end.

(** [v.k] for the property names the action reads ([is_ok], [body],
    [path], [line], [commit_id], [side], [start_line], [start_side]): none
    of them is defined on a prototype, so a primitive or an array has
    none of them, and undefined and null throw. *)
Definition get_prop (v : jsval) (k : jsstring) : error + jsval :=
  match v with
  | JUndef | JNull => inl (TypeError CannotReadProperty)
  | JObj fs => inr (obj_get fs k)
  | _ => inr JUndef
  end.

(** [v.k = x] on the parsed object. *)
Definition set_prop (v : jsval) (k : jsstring) (x : jsval) : jsval :=
  match v with
  | JObj fs => JObj (obj_set fs k x)
  | _ => v
  end.

(** Whether a template literal can interpolate [v].  A plain object is
    printed by Object.prototype.toString unless it has an own [toString]
    property, which as data is not callable; an array prints its items. *)
Fixpoint stringable (v : jsval) : bool :=
  match v with
  | JObj fs => negb (obj_has fs (str "toString"))
  | JArr items => forallb stringable items
  | _ => true
  end.

(** ** The regular expression  /\{[\s\S]*?\}/g

    [scan None] looks for the next opening brace, [scan (Some a)] is inside
    a match whose code units so far are [a], reversed; the lazy star stops
    at the first closing brace.  An opening brace that is never closed
    matches nothing, and neither does anything after it. *)
Fixpoint scan (open : option jsstring) (s : jsstring) : list jsstring :=
  match s with
  | [] => []
  | c :: s' =>
      match open with
      | None => if c =? 123 then scan (Some [c]) s' else scan None s'
      | Some a =>
          if c =? 125 then rev (c :: a) :: scan None s'
          else scan (Some (c :: a)) s'
      end
  end.

(** [s.match(re)] with the global flag: null when nothing matches. *)
Definition string_match (s : jsstring) : option (list jsstring) :=
  match scan None s with
  | [] => None
  | ms => Some ms
  end.

(** ** JSON.parse *)

Inductive token : Type :=
| TLBrace | TRBrace | TLBracket | TRBracket | TColon | TComma
| TStr (s : jsstring)
| TNum (m e : Z)
| TTrue | TFalse | TNull.

Definition is_ws (c : N) : bool :=
  (c =? 32) || (c =? 9) || (c =? 10) || (c =? 13).

Definition punct (c : N) : option token :=
  if c =? 123 then Some TLBrace
  else if c =? 125 then Some TRBrace
  else if c =? 91 then Some TLBracket
  else if c =? 93 then Some TRBracket
  else if c =? 58 then Some TColon
  else if c =? 44 then Some TComma
  else None.

Definition digit_of (c : N) : option Z :=
  if (48 <=? c) && (c <=? 57) then Some (Z.of_N (c - 48)) else None.

Definition hex_of (c : N) : option N :=
  if (48 <=? c) && (c <=? 57) then Some (c - 48)
  else if (97 <=? c) && (c <=? 102) then Some (c - 87)
  else if (65 <=? c) && (c <=? 70) then Some (c - 55)
  else None.

(** Where the lexer is inside a string literal. *)
Inductive sstate : Type :=
| SNormal
| SEscape
| SHex (todo : nat) (v : N).

(** Where the lexer is inside a number. *)
Inductive nstage : Type :=
| NMinus | NZero | NInt | NDot | NFrac | NE | NESign | NExp.

Record nstate : Type := mk_nstate {
  n_stage : nstage;
  n_neg : bool;
  n_mant : Z;
  n_fdigits : Z;
  n_eneg : bool;
  n_exp : Z
}.

Definition num_start (c : N) : option nstate :=
  if c =? 45 then Some (mk_nstate NMinus true 0 0 false 0)
  else match digit_of c with
       | Some d => Some (mk_nstate (if (d =? 0)%Z then NZero else NInt)
                                   false d 0 false 0)
       | None => None
       end.

Definition is_e (c : N) : bool := (c =? 101) || (c =? 69).

Definition num_step (st : nstate) (c : N) : option nstate :=
  let '(mk_nstate stage neg m fd en ev) := st in
  match stage with
  | NMinus =>
      match digit_of c with
      | Some d => Some (mk_nstate (if (d =? 0)%Z then NZero else NInt)
                                  neg d fd en ev)
      | None => None
      end
  | NZero =>
      if c =? 46 then Some (mk_nstate NDot neg m fd en ev)
      else if is_e c then Some (mk_nstate NE neg m fd en ev)
      else None
  | NInt =>
      match digit_of c with
      | Some d => Some (mk_nstate NInt neg (10 * m + d)%Z fd en ev)
      | None =>
          if c =? 46 then Some (mk_nstate NDot neg m fd en ev)
          else if is_e c then Some (mk_nstate NE neg m fd en ev)
          else None
      end
  | NDot =>
      match digit_of c with
      | Some d => Some (mk_nstate NFrac neg (10 * m + d)%Z (fd + 1)%Z en ev)
      | None => None
      end
  | NFrac =>
      match digit_of c with
      | Some d => Some (mk_nstate NFrac neg (10 * m + d)%Z (fd + 1)%Z en ev)
      | None => if is_e c then Some (mk_nstate NE neg m fd en ev) else None
      end
  | NE =>
      if c =? 43 then Some (mk_nstate NESign neg m fd false ev)
      else if c =? 45 then Some (mk_nstate NESign neg m fd true ev)
      else match digit_of c with
           | Some d => Some (mk_nstate NExp neg m fd en d)
           | None => None
           end
  | NESign =>
      match digit_of c with
      | Some d => Some (mk_nstate NExp neg m fd en d)
      | None => None
      end
  | NExp =>
      match digit_of c with
      | Some d => Some (mk_nstate NExp neg m fd en (10 * ev + d)%Z)
      | None => None
      end
  end.

Definition num_finish (st : nstate) : option token :=
  let '(mk_nstate stage neg m fd en ev) := st in
  let tok := TNum (if neg then - m else m)%Z
                  ((if en then - ev else ev) - fd)%Z in
  match stage with
  | NZero | NInt | NFrac | NExp => Some tok
  | NMinus | NDot | NE | NESign => None
  end.

(** The code unit that ends a number is white space or closes or
    continues the enclosing container; anything else is a syntax error. *)
Definition after_number (c : N) : option (list token) :=
  if is_ws c then Some []
  else if c =? 44 then Some [TComma]
  else if c =? 125 then Some [TRBrace]
  else if c =? 93 then Some [TRBracket]
  else None.

Definition unescape (c : N) : option N :=
  if c =? 34 then Some 34
  else if c =? 92 then Some 92
  else if c =? 47 then Some 47
  else if c =? 98 then Some 8
  else if c =? 102 then Some 12
  else if c =? 110 then Some 10
  else if c =? 114 then Some 13
  else if c =? 116 then Some 9
  else None.

Definition push (ts : list token) (r : option (list token))
  : option (list token) :=
  match r with
  | Some l => Some (ts ++ l)
  | None => None
  end.

Fixpoint lex (s : jsstring) {struct s} : option (list token) :=
  match s with
  | [] => Some []
  | c :: s' =>
      if is_ws c then lex s'
      else match punct c with
      | Some t => push [t] (lex s')
      | None =>
      if c =? 34 then lex_str SNormal [] s'
      else match num_start c with
      | Some st => lex_num st s'
      | None =>
      if c =? 116 then lex_lit (str "rue") TTrue s'
      else if c =? 102 then lex_lit (str "alse") TFalse s'
      else if c =? 110 then lex_lit (str "ull") TNull s'
      else None
      end end
  end

with lex_str (st : sstate) (acc : jsstring) (s : jsstring) {struct s}
  : option (list token) :=
  match s with
  | [] => None
  | c :: s' =>
      match st with
      | SNormal =>
          if c =? 34 then push [TStr (rev acc)] (lex s')
          else if c =? 92 then lex_str SEscape acc s'
          else if c <? 32 then None
          else lex_str SNormal (c :: acc) s'
      | SEscape =>
          if c =? 117 then lex_str (SHex 4 0) acc s'
          else match unescape c with
               | Some u => lex_str SNormal (u :: acc) s'
               | None => None
               end
      | SHex todo v =>
          match hex_of c with
          | Some h =>
              match todo with
              | 0%nat => None
              | 1%nat => lex_str SNormal ((16 * v + h) :: acc) s'
              | S todo' => lex_str (SHex todo' (16 * v + h)) acc s'
              end
          | None => None
          end
      end
  end

with lex_num (st : nstate) (s : jsstring) {struct s} : option (list token) :=
  match s with
  | [] => match num_finish st with Some t => Some [t] | None => None end
  | c :: s' =>
      match num_step st c with
      | Some st' => lex_num st' s'
      | None =>
          match num_finish st, after_number c with
          | Some t, Some ts => push (t :: ts) (lex s')
          | _, _ => None
          end
      end
  end

with lex_lit (rest : jsstring) (t : token) (s : jsstring) {struct s}
  : option (list token) :=
  match s with
  | [] => None
  | c :: s' =>
      match rest with
      | [] => None
      | [x] => if c =? x then push [t] (lex s') else None
      | x :: rest' => if c =? x then lex_lit rest' t s' else None
      end
  end.

(** A container under construction: the items of an array, reversed, or
    the properties of an object and the key whose value is being read. *)
Inductive frame : Type :=
| FArr (items : list jsval)
| FObj (fields : list (jsstring * jsval)) (key : jsstring).

(** [parse_val] expects a value; [deliver v] has just read the value [v]
    and hands it to the innermost open container.  A repeated key keeps
    its place and takes the last value. *)
Fixpoint parse_val (stk : list frame) (ts : list token) {struct ts}
  : option jsval :=
  match ts with
  | [] => None
  | t :: ts' =>
      match t with
      | TNull => deliver JNull stk ts'
      | TTrue => deliver (JBool true) stk ts'
      | TFalse => deliver (JBool false) stk ts'
      | TNum m e => deliver (JNum m e) stk ts'
      | TStr s => deliver (JStr s) stk ts'
      | TLBracket =>
          match ts' with
          | TRBracket :: ts'' => deliver (JArr []) stk ts''
          | _ => parse_val (FArr [] :: stk) ts'
          end
      | TLBrace =>
          match ts' with
          | TRBrace :: ts'' => deliver (JObj []) stk ts''
          | TStr k :: TColon :: ts'' => parse_val (FObj [] k :: stk) ts''
          | _ => None
          end
      | _ => None
      end
  end

with deliver (v : jsval) (stk : list frame) (ts : list token) {struct ts}
  : option jsval :=
  match stk with
  | [] => match ts with [] => Some v | _ => None end
  | FArr items :: stk' =>
      match ts with
      | TComma :: ts' => parse_val (FArr (v :: items) :: stk') ts'
      | TRBracket :: ts' => deliver (JArr (rev (v :: items))) stk' ts'
      | _ => None
      end
  | FObj fields k :: stk' =>
      match ts with
      | TComma :: TStr k' :: TColon :: ts' =>
          parse_val (FObj (obj_set fields k v) k' :: stk') ts'
      | TRBrace :: ts' => deliver (JObj (obj_set fields k v)) stk' ts'
      | _ => None
      end
  end.

(** [JSON.parse(s)]: the value, or a SyntaxError. *)
Definition JSON_parse (s : jsstring) : error + jsval :=
  match lex s with
  | Some ts =>
      match parse_val [] ts with
      | Some v => inr v
      | None => inl SyntaxError
      end
  | None => inl SyntaxError
  end.

(** ** What the action talks to *)

(** The invocation inputs and the repository the workflow runs in. *)
Record inputs : Type := mk_inputs {
  openai_api_key : jsstring;
  github_token : jsstring;
  github_pr_id : jsstring;
  owner : jsstring;
  repo : jsstring
}.

(** The parts of the API answers that the action reads. *)
Record pull : Type := mk_pull {
  head_sha : jsstring;
  base_sha : jsstring;
  title : jsstring;
  pr_body : option jsstring
}.

Record file : Type := mk_file {
  filename : jsstring;
  status : jsstring;
  additions : Z;
  deletions : Z;
  changes : Z;
  patch : option jsstring
}.

Record comment : Type := mk_comment {
  c_body : jsstring;
  c_path : option jsstring;
  c_line : option Z;
  c_created_at : jsstring
}.

(** The prompt is a fixed template; this is the data interpolated in it. *)
Record prompt : Type := mk_prompt {
  p_number : jsstring;
  p_owner : jsstring;
  p_repo : jsstring;
  p_head : jsstring;
  p_base : jsstring;
  p_title : jsstring;
  p_description : jsstring;
  p_files : list file;
  p_patches : list jsstring;
  p_comments : list comment
}.

(** [s || fallback] for a string that may be missing. *)
Definition or_default (s : option jsstring) (fallback : string) : jsstring :=
  match s with
  | Some (c :: s') => c :: s'
  | _ => str fallback
  end.

Definition build_prompt (cfg : inputs) (pr : pull) (files : list file)
    (existingComments discussionComments : list comment) : prompt :=
  {| p_number := github_pr_id cfg;
     p_owner := owner cfg;
     p_repo := repo cfg;
     p_head := head_sha pr;
     p_base := base_sha pr;
     p_title := title pr;
     p_description := or_default (pr_body pr) "No description provided";
     p_files := files;
     p_patches :=
       map (fun f => or_default (patch f) "No patch content available") files;
     p_comments := existingComments ++ discussionComments |}.

(** The parameters of [pulls.createReviewComment] that come from the
    segment; owner, repo and pull number are those of the invocation. *)
Record review_comment : Type := mk_review_comment {
  rc_body : jsval;
  rc_commit_id : jsval;
  rc_path : jsval;
  rc_line : jsval;
  rc_side : jsval;
  rc_start_line : jsval;
  rc_start_side : jsval
}.

Inductive request : Type :=
| PullsGet
| PullsListFiles
| PullsListReviewComments
| IssuesListComments
| ChatCompletionsCreate (p : prompt)
| IssuesCreateComment (body : jsval)
| PullsCreateReviewComment (c : review_comment).

Inductive info_line : Type :=
| Starting (prNumber : jsstring)
| ChangedFiles (fileNames : list jsstring)
| AIReviewResponse (feedback : jsval)
| NoIssuesFound
| PostedInline (path line : jsval)
| PostedRegularNoJson
| PostedRegularFallback
| Completed.

(** What an invocation does, in order.  [Warning e] is the line
    "Failed to parse JSON comment: " followed by the message of [e];
    [SetFailed e] is "Action failed with error: " followed by it; a
    [Call] records the request and the error it failed with, if any. *)
Inductive event : Type :=
| Info (l : info_line)
| Warning (e : error)
| Call (r : request) (failure : option error)
| SetOutput (name value : jsstring)
| SetFailed (e : error).

(** The services.  The context requests and the completion are made once;
    whether a comment is accepted may depend on all that happened before.
    [chat_completions_create] stands for the call and the selection of
    [choices[0].message.content] in its answer. *)
Record env : Type := mk_env {
  getOctokit : option error;
  pulls_get : error + pull;
  pulls_listFiles : error + list file;
  pulls_listReviewComments : error + list comment;
  issues_listComments : error + list comment;
  chat_completions_create : prompt -> error + jsval;
  issues_createComment : list event -> jsval -> option error;
  pulls_createReviewComment : list event -> review_comment -> option error
}.

(** ** The monad: a trace of events and exceptions *)

Definition M (A : Type) : Type := list event -> (error + A) * list event.

Definition ret {A : Type} (a : A) : M A := fun tr => (inr a, tr).

Definition bind {A B : Type} (m : M A) (k : A -> M B) : M B :=
  fun tr =>
    match m tr with
    | (inr a, tr') => k a tr'
    | (inl err, tr') => (inl err, tr')
    end.

Definition throw {A : Type} (err : error) : M A := fun tr => (inl err, tr).

Definition lift {A : Type} (r : error + A) : M A := fun tr => (r, tr).

Definition try_catch {A : Type} (m : M A) (handler : error -> M A) : M A :=
  fun tr =>
    match m tr with
    | (inl err, tr') => handler err tr'
    | r => r
    end.

Definition emit (ev : event) : M unit := fun tr => (inr tt, tr ++ [ev]).

Definition failure_of {A : Type} (r : error + A) : option error :=
  match r with
  | inl err => Some err
  | inr _ => None
  end.

(** An awaited request: the service answers from what happened so far. *)
Definition call {A : Type} (r : request) (answer : list event -> error + A)
  : M A :=
  fun tr => (answer tr, tr ++ [Call r (failure_of (answer tr))]).

Definition unit_or (o : option error) : error + unit :=
  match o with
  | Some err => inl err
  | None => inr tt
  end.

Declare Scope action_scope.
Delimit Scope action_scope with action.
Notation "x <- m ;; k" := (bind m (fun x => k))
  (at level 61, m at next level, right associativity) : action_scope.
Notation "m ;; k" := (bind m (fun _ => k))
  (at level 61, right associativity) : action_scope.

Fixpoint for_each {A : Type} (l : list A) (body : A -> M unit) : M unit :=
  match l with
  | [] => ret tt
  | x :: l' => bind (body x) (fun _ => for_each l' body)
  end.

(** Binding in the pure, exception-only fragment. *)
Definition ebind {A B : Type} (r : error + A) (k : A -> error + B)
  : error + B :=
  match r with
  | inr a => k a
  | inl err => inl err
  end.

Notation "x <-? r ;; k" := (ebind r (fun x => k))
  (at level 61, r at next level, right associativity) : action_scope.

Local Open Scope action_scope.

(** ** The orchestrator *)

(** [commentData.body && commentData.path && commentData.line] *)
Definition has_required_fields (commentData : jsval) : error + bool :=
  body <-? get_prop commentData (str "body") ;;
  if truthy body then
    path <-? get_prop commentData (str "path") ;;
    if truthy path then
      line <-? get_prop commentData (str "line") ;;
      inr (truthy line)
    else inr false
  else inr false.

(** The two assignments that set the default values. *)
Definition set_defaults (pr : pull) (commentData : jsval) : error + jsval :=
  commit_id <-? get_prop commentData (str "commit_id") ;;
  let commentData1 :=
    set_prop commentData (str "commit_id")
             (js_or commit_id (JStr (head_sha pr))) in
  side <-? get_prop commentData1 (str "side") ;;
  inr (set_prop commentData1 (str "side") (js_or side (JStr (str "RIGHT")))).

(** The argument of [createReviewComment], read off [commentData]. *)
Definition review_comment_of (commentData : jsval) : error + review_comment :=
  body <-? get_prop commentData (str "body") ;;
  commit_id <-? get_prop commentData (str "commit_id") ;;
  path <-? get_prop commentData (str "path") ;;
  line <-? get_prop commentData (str "line") ;;
  side <-? get_prop commentData (str "side") ;;
  start_line <-? get_prop commentData (str "start_line") ;;
  start_side <-? get_prop commentData (str "start_side") ;;
  inr {| rc_body := body; rc_commit_id := commit_id; rc_path := path;
         rc_line := line; rc_side := side; rc_start_line := start_line;
         rc_start_side := start_side |}.

(** The request that a parsed segment leads to. *)
Definition request_of (pr : pull) (commentData : jsval)
  : error + review_comment :=
  commentData' <-? set_defaults pr commentData ;;
  review_comment_of commentData'.

(** Interpolation of a value in a template literal. *)
Definition interpolate (v : jsval) : M unit :=
  if stringable v then ret tt else throw (TypeError CannotConvert).

(** [feedback.match(re)] *)
Definition match_braces (feedback : jsval) : M (option (list jsstring)) :=
  match feedback with
  | JStr s => ret (string_match s)
  | JUndef | JNull => throw (TypeError CannotReadProperty)
  | _ => throw (TypeError NotAFunction)
  end.

Section Orchestrator.

Variable cfg : inputs.
Variable services : env.

Definition createComment (body : jsval) : M unit :=
  call (IssuesCreateComment body)
       (fun tr => unit_or (issues_createComment services tr body)).

Definition createReviewComment (c : review_comment) : M unit :=
  call (PullsCreateReviewComment c)
       (fun tr => unit_or (pulls_createReviewComment services tr c)).

(** The body of the loop over the matches, with its own try and catch. *)
Definition post_segment (pr : pull) (jsonStr : jsstring) : M unit :=
  try_catch
    (commentData <- lift (JSON_parse jsonStr) ;;
     valid <- lift (has_required_fields commentData) ;;
     if valid : bool then
       commentData' <- lift (set_defaults pr commentData) ;;
       c <- lift (review_comment_of commentData') ;;
       createReviewComment c ;;
       path <- lift (get_prop commentData' (str "path")) ;;
       interpolate path ;;
       line <- lift (get_prop commentData' (str "line")) ;;
       interpolate line ;;
       emit (Info (PostedInline path line))
     else ret tt)
    (fun parseError => emit (Warning parseError)).

(** From the test of [feedback.is_ok] to the end of its if-else. *)
Definition interpret (pr : pull) (feedback : jsval) : M unit :=
  is_ok <- lift (get_prop feedback (str "is_ok")) ;;
  if truthy is_ok then
    body <- lift (get_prop feedback (str "body")) ;;
    createComment body ;;
    emit (Info NoIssuesFound)
  else
    try_catch
      (jsonMatches <- match_braces feedback ;;
       match jsonMatches with
       | Some ms =>
           if (0 <? List.length ms)%nat then for_each ms (post_segment pr)
           else createComment feedback ;; emit (Info PostedRegularNoJson)
       | None => createComment feedback ;; emit (Info PostedRegularNoJson)
       end)
      (fun _ => createComment feedback ;; emit (Info PostedRegularFallback)).

Definition run : M unit :=
  try_catch
    (emit (Info (Starting (github_pr_id cfg))) ;;
     lift (unit_or (getOctokit services)) ;;
     pr <- call PullsGet (fun _ => pulls_get services) ;;
     files <- call PullsListFiles (fun _ => pulls_listFiles services) ;;
     existingComments <-
       call PullsListReviewComments
            (fun _ => pulls_listReviewComments services) ;;
     discussionComments <-
       call IssuesListComments (fun _ => issues_listComments services) ;;
     emit (Info (ChangedFiles (map filename files))) ;;
     let prompt :=
       build_prompt cfg pr files existingComments discussionComments in
     feedback <-
       call (ChatCompletionsCreate prompt)
            (fun _ => chat_completions_create services prompt) ;;
     interpolate feedback ;;
     emit (Info (AIReviewResponse feedback)) ;;
     interpret pr feedback ;;
     emit (Info Completed) ;;
     emit (SetOutput (str "success") (str "true")))
    (fun error => emit (SetFailed error)).

(** Everything one invocation does. *)
Definition trace : list event := snd (run []).

End Orchestrator.

(** ** Reading a trace *)

Definition inline_comments (tr : list event) : list review_comment :=
  flat_map (fun ev => match ev with
                      | Call (PullsCreateReviewComment c) _ => [c]
                      | _ => []
                      end) tr.

Definition discussion_comments (tr : list event) : list jsval :=
  flat_map (fun ev => match ev with
                      | Call (IssuesCreateComment body) _ => [body]
                      | _ => []
                      end) tr.

Definition completions (tr : list event) : list prompt :=
  flat_map (fun ev => match ev with
                      | Call (ChatCompletionsCreate p) _ => [p]
                      | _ => []
                      end) tr.

Definition warnings (tr : list event) : list error :=
  flat_map (fun ev => match ev with Warning err => [err] | _ => [] end) tr.

(** What the invocation reported: outputs set, and failures. *)
Definition reported (tr : list event) : list (error + jsstring * jsstring) :=
  flat_map (fun ev => match ev with
                      | SetOutput name value => [inr (name, value)]
                      | SetFailed err => [inl err]
                      | _ => []
                      end) tr.

Definition success : list (error + jsstring * jsstring) :=
  [inr (str "success", str "true")].

(** The validation of a parsed object, on its properties. *)
Definition postable (fields : list (jsstring * jsval)) : bool :=
  truthy (obj_get fields (str "body"))
  && truthy (obj_get fields (str "path"))
  && truthy (obj_get fields (str "line")).

(** The request of a parsed object, in closed form. *)
Definition draft (pr : pull) (fields : list (jsstring * jsval))
  : review_comment :=
  {| rc_body := obj_get fields (str "body");
     rc_commit_id :=
       js_or (obj_get fields (str "commit_id")) (JStr (head_sha pr));
     rc_path := obj_get fields (str "path");
     rc_line := obj_get fields (str "line");
     rc_side := js_or (obj_get fields (str "side")) (JStr (str "RIGHT"));
     rc_start_line := obj_get fields (str "start_line");
     rc_start_side := obj_get fields (str "start_side") |}.

(** The requests a match leads to, whatever the services answer: one for
    a match that parses and passes the validation, none otherwise. *)
Definition drafts_of_segment (pr : pull) (jsonStr : jsstring)
  : list review_comment :=
  match JSON_parse jsonStr with
  | inr commentData =>
      match has_required_fields commentData with
      | inr true =>
          match request_of pr commentData with
          | inr c => [c]
          | inl _ => []
          end
      | _ => []
      end
  | inl _ => []
  end.

(** The context was fetched, the pull request is [pr], and the model
    answered [feedback]. *)
Definition model_answers (cfg : inputs) (services : env) (pr : pull)
    (feedback : jsval) : Prop :=
  getOctokit services = None /\
  pulls_get services = inr pr /\
  exists files existing discussion,
    pulls_listFiles services = inr files /\
    pulls_listReviewComments services = inr existing /\
    issues_listComments services = inr discussion /\
    chat_completions_create services
      (build_prompt cfg pr files existing discussion) = inr feedback.

(** The first context request that fails, if any. *)
Definition fetch_failure (services : env) : option error :=
  match pulls_get services with
  | inl err => Some err
  | inr _ =>
  match pulls_listFiles services with
  | inl err => Some err
  | inr _ =>
  match pulls_listReviewComments services with
  | inl err => Some err
  | inr _ => failure_of (issues_listComments services)
  end end end.

(** Every refused inline comment is followed at once by the warning that
    carries its error. *)
Fixpoint failures_warned (tr : list event) : Prop :=
  match tr with
  | [] => True
  | Call (PullsCreateReviewComment _) (Some err) :: rest =>
      (exists rest', rest = Warning err :: rest') /\ failures_warned rest
  | _ :: rest => failures_warned rest
  end.

(** What one pass through the loop body adds to the trace. *)
Inductive segment_outcome (pr : pull) (jsonStr : jsstring)
  : list event -> Prop :=
| seg_unparseable err :
    JSON_parse jsonStr = inl err ->
    segment_outcome pr jsonStr [Warning err]
| seg_unreadable commentData err :
    JSON_parse jsonStr = inr commentData ->
    has_required_fields commentData = inl err ->
    segment_outcome pr jsonStr [Warning err]
| seg_skipped commentData :
    JSON_parse jsonStr = inr commentData ->
    has_required_fields commentData = inr false ->
    segment_outcome pr jsonStr []
| seg_posted fs :
    JSON_parse jsonStr = inr (JObj fs) ->
    postable fs = true ->
    stringable (obj_get fs (str "path")) = true ->
    stringable (obj_get fs (str "line")) = true ->
    segment_outcome pr jsonStr
      [Call (PullsCreateReviewComment (draft pr fs)) None;
       Info (PostedInline (obj_get fs (str "path"))
                          (obj_get fs (str "line")))]
| seg_posted_unlogged fs :
    JSON_parse jsonStr = inr (JObj fs) ->
    postable fs = true ->
    stringable (obj_get fs (str "path")) = false \/
    stringable (obj_get fs (str "line")) = false ->
    segment_outcome pr jsonStr
      [Call (PullsCreateReviewComment (draft pr fs)) None;
       Warning (TypeError CannotConvert)]
| seg_refused fs err :
    JSON_parse jsonStr = inr (JObj fs) ->
    postable fs = true ->
    segment_outcome pr jsonStr
      [Call (PullsCreateReviewComment (draft pr fs)) (Some err);
       Warning err].

(** What the whole loop adds. *)
Inductive loop_outcome (pr : pull) : list jsstring -> list event -> Prop :=
| loop_done : loop_outcome pr [] []
| loop_step jsonStr ms evs evs' :
    segment_outcome pr jsonStr evs ->
    loop_outcome pr ms evs' ->
    loop_outcome pr (jsonStr :: ms) (evs ++ evs').

(** The events up to and including the log line with the answer. *)
Definition preamble (cfg : inputs) (pr : pull) (files : list file)
    (existing discussion : list comment) (feedback : jsval) : list event :=
  [Info (Starting (github_pr_id cfg));
   Call PullsGet None;
   Call PullsListFiles None;
   Call PullsListReviewComments None;
   Call IssuesListComments None;
   Info (ChangedFiles (map filename files));
   Call (ChatCompletionsCreate
           (build_prompt cfg pr files existing discussion)) None;
   Info (AIReviewResponse feedback)].

(** The events after the interpretation of the answer. *)
Definition closing (r : error + unit) : list event :=
  match r with
  | inr _ => [Info Completed; SetOutput (str "success") (str "true")]
  | inl err => [SetFailed err]
  end.

(** ** Example invocations *)

Definition example_inputs : inputs :=
  mk_inputs (str "sk-test") (str "ghs-test") (str "7")
            (str "acme") (str "widgets").

Definition example_pull : pull :=
  mk_pull (str "abc123") (str "000fff") (str "Fix the parser") None.

(** Services whose context requests succeed on an empty change set, whose
    model answers [feedback], and which refuse the inline comments that
    [refuse] says. *)
Definition example_services (feedback : jsval)
    (refuse : review_comment -> option error) : env :=
  {| getOctokit := None;
     pulls_get := inr example_pull;
     pulls_listFiles := inr [];
     pulls_listReviewComments := inr [];
     issues_listComments := inr [];
     chat_completions_create := fun _ => inr feedback;
     issues_createComment := fun _ _ => None;
     pulls_createReviewComment := fun _ c => refuse c |}.

Definition accept_all (c : review_comment) : option error := None.

(** The approval phrase the prompt asks for. *)
Definition approval_phrase : jsstring := str "Everything looks good!".

Definition positive_verdict : jsval :=
  JObj [(str "is_ok", JBool true); (str "body", JStr (str "LGTM"))].

(** Prose that quotes code with braces, and no JSON. *)
Definition prose_text : jsstring :=
  str "Prefer an early exit: if (!x) { return; } reads better.".

(** The pull request does not exist. *)
Definition missing_pull_services : env :=
  {| getOctokit := None;
     pulls_get := inl (RequestError (str "Not Found"));
     pulls_listFiles := inr [];
     pulls_listReviewComments := inr [];
     issues_listComments := inr [];
     chat_completions_create := fun _ => inr (JStr approval_phrase);
     issues_createComment := fun _ _ => None;
     pulls_createReviewComment := fun _ _ => None |}.

Definition segment_a : jsstring :=
  json "{'body':'Unused variable','path':'a.py','line':3}".

Definition fields_a : list (jsstring * jsval) :=
  [(str "body", JStr (str "Unused variable"));
   (str "path", JStr (str "a.py"));
   (str "line", JNum 3 0)].

Definition segment_b : jsstring :=
  json "{'body':'Shadowed name','path':'b.py','start_line':4,'line':99}".

Definition fields_b : list (jsstring * jsval) :=
  [(str "body", JStr (str "Shadowed name"));
   (str "path", JStr (str "b.py"));
   (str "start_line", JNum 4 0);
   (str "line", JNum 99 0)].

(** Parses, but has no path and no line. *)
Definition segment_no_anchor : jsstring := json "{'body':'Needs a path'}".

(** Does not parse. *)
Definition segment_broken : jsstring := json "{'body': oops}".

(** Parses, with a line that is zero. *)
Definition segment_line_zero : jsstring :=
  json "{'body':'Header comment','path':'a.py','line':0}".

Definition fields_line_zero : list (jsstring * jsval) :=
  [(str "body", JStr (str "Header comment"));
   (str "path", JStr (str "a.py"));
   (str "line", JNum 0 0)].

Definition sep : jsstring := str " and ".

Definition four_segments : jsstring :=
  segment_a ++ sep ++ segment_b ++ sep ++ segment_a ++ sep ++ segment_b.

(** The service refuses a comment on line 99, which is not in the diff. *)
Definition refuse_line_99 (c : review_comment) : option error :=
  match rc_line c with
  | JNum 99 0 => Some (RequestError (str "line must be part of the diff"))
  | _ => None
  end.

(** Whether the outermost open container is an object. *)
Fixpoint bottom_is_object (stk : list frame) : bool :=
  match stk with
  | [] => false
  | [FObj _ _] => true
  | [FArr _] => false
  | _ :: stk' => bottom_is_object stk'
  end.

Definition is_object (v : jsval) : bool :=
  match v with
  | JObj _ => true
  | _ => false
  end.

(** ** More example invocations *)

(** The service refuses every discussion comment. *)
Definition refusing_services (feedback : jsval) (err : error) : env :=
  {| getOctokit := None;
     pulls_get := inr example_pull;
     pulls_listFiles := inr [];
     pulls_listReviewComments := inr [];
     issues_listComments := inr [];
     chat_completions_create := fun _ => inr feedback;
     issues_createComment := fun _ _ => Some err;
     pulls_createReviewComment := fun _ _ => None |}.

(** The service refuses the first discussion comment of a run and accepts
    the ones after it. *)
Definition flaky_services (feedback : jsval) (err : error) : env :=
  {| getOctokit := None;
     pulls_get := inr example_pull;
     pulls_listFiles := inr [];
     pulls_listReviewComments := inr [];
     issues_listComments := inr [];
     chat_completions_create := fun _ => inr feedback;
     issues_createComment := fun tr _ =>
       match discussion_comments tr with
       | [] => Some err
       | _ => None
       end;
     pulls_createReviewComment := fun _ _ => None |}.

(** The completion call fails. *)
Definition failing_completion_services (err : error) : env :=
  {| getOctokit := None;
     pulls_get := inr example_pull;
     pulls_listFiles := inr [];
     pulls_listReviewComments := inr [];
     issues_listComments := inr [];
     chat_completions_create := fun _ => inl err;
     issues_createComment := fun _ _ => None;
     pulls_createReviewComment := fun _ _ => None |}.

(** No client can be made of the token. *)
Definition no_client_services (err : error) : env :=
  {| getOctokit := Some err;
     pulls_get := inr example_pull;
     pulls_listFiles := inr [];
     pulls_listReviewComments := inr [];
     issues_listComments := inr [];
     chat_completions_create := fun _ => inr (JStr approval_phrase);
     issues_createComment := fun _ _ => None;
     pulls_createReviewComment := fun _ _ => None |}.

Definition rate_limited : error := RequestError (str "rate limited").

(** The context requests succeeded with these answers. *)
Definition context_fetched (services : env) (pr : pull) (files : list file)
    (existing discussion : list comment) : Prop :=
  getOctokit services = None /\
  pulls_get services = inr pr /\
  pulls_listFiles services = inr files /\
  pulls_listReviewComments services = inr existing /\
  issues_listComments services = inr discussion.

(** The closing braces of a text. *)
Definition closing_braces (s : jsstring) : nat := count_occ N.eq_dec s 125.

(** The objects in a value, itself included. *)
Fixpoint objects (v : jsval) : nat :=
  match v with
  | JObj fs => S (list_sum (map (fun kv => objects (snd kv)) fs))
  | JArr items => list_sum (map objects items)
  | _ => 0
  end.

(** The objects already read into the open containers. *)
Definition frame_objects (f : frame) : nat :=
  match f with
  | FArr items => list_sum (map objects items)
  | FObj fields _ => list_sum (map (fun kv => objects (snd kv)) fields)
  end.

Definition stack_objects (stk : list frame) : nat :=
  list_sum (map frame_objects stk).

(** The closing-brace tokens of a token list. *)
Fixpoint rbraces (ts : list token) : nat :=
  match ts with
  | [] => 0
  | TRBrace :: ts' => S (rbraces ts')
  | _ :: ts' => rbraces ts'
  end.

(** ** The previous version of the action

    The second [run] of the file: it logs its inputs, lists the changed
    files, asks the model to review them by name, and posts the answer as
    one discussion comment. *)
Module Previous.

Inductive request : Type :=
| PullsListFiles
| ChatCompletionsCreate (fileNames : list jsstring)
| IssuesCreateComment (body : jsval).

Inductive info_line : Type :=
| OpenAIKey (openaiApiKey : jsstring)
| GitHubToken (githubToken : jsstring)
| PRNumber (prNumber : jsstring)
| Feedback (feedback : jsval)
| Completed.

Inductive event : Type :=
| Info (l : info_line)
| Call (r : request) (failure : option error)
| SetOutput (name value : jsstring)
| SetFailed (e : error).

(** Each service is used at most once in a run. *)
Record env : Type := mk_env {
  getOctokit : option error;
  pulls_listFiles : error + list file;
  chat_completions_create : list jsstring -> error + jsval;
  issues_createComment : jsval -> option error
}.

Definition M (A : Type) : Type := list event -> (error + A) * list event.

Definition bind {A B : Type} (m : M A) (k : A -> M B) : M B :=
  fun tr =>
    match m tr with
    | (inr a, tr') => k a tr'
    | (inl err, tr') => (inl err, tr')
    end.

Definition lift {A : Type} (r : error + A) : M A := fun tr => (r, tr).

Definition try_catch {A : Type} (m : M A) (handler : error -> M A) : M A :=
  fun tr =>
    match m tr with
    | (inl err, tr') => handler err tr'
    | r => r
    end.

Definition emit (ev : event) : M unit := fun tr => (inr tt, tr ++ [ev]).

Definition call {A : Type} (r : request) (answer : error + A) : M A :=
  fun tr => (answer, tr ++ [Call r (failure_of answer)]).

Definition interpolate (v : jsval) : M unit :=
  lift (if stringable v then inr tt else inl (TypeError CannotConvert)).

Declare Scope previous_scope.
Delimit Scope previous_scope with previous.
Notation "x <- m ;; k" := (bind m (fun x => k))
  (at level 61, m at next level, right associativity) : previous_scope.
Notation "m ;; k" := (bind m (fun _ => k))
  (at level 61, right associativity) : previous_scope.

Definition run (cfg : inputs) (services : env) : M unit :=
  (try_catch
     (emit (Info (OpenAIKey (openai_api_key cfg))) ;;
      emit (Info (GitHubToken (github_token cfg))) ;;
      emit (Info (PRNumber (github_pr_id cfg))) ;;
      lift (unit_or (getOctokit services)) ;;
      files <- call PullsListFiles (pulls_listFiles services) ;;
      let fileNames := map filename files in
      feedback <-
        call (ChatCompletionsCreate fileNames)
             (chat_completions_create services fileNames) ;;
      interpolate feedback ;;
      emit (Info (Feedback feedback)) ;;
      call (IssuesCreateComment feedback)
           (unit_or (issues_createComment services feedback)) ;;
      emit (Info Completed) ;;
      emit (SetOutput (str "success") (str "true")))
     (fun error => emit (SetFailed error)))%previous.

Definition trace (cfg : inputs) (services : env) : list event :=
  snd (run cfg services []).

(** All the stages succeed, with this change set and this answer. *)
Definition all_succeed (services : env) (files : list file)
    (feedback : jsval) : Prop :=
  getOctokit services = None /\
  pulls_listFiles services = inr files /\
  chat_completions_create services (map filename files) = inr feedback /\
  stringable feedback = true /\
  issues_createComment services feedback = None.

Definition example_file : file :=
  mk_file (str "a.py") (str "modified") 1 0 1 None.

(** The model answers, and the service refuses the comment. *)
Definition refusing_services (err : error) : env :=
  {| getOctokit := None;
     pulls_listFiles := inr [example_file];
     chat_completions_create := fun _ => inr (JStr (str "Rename x."));
     issues_createComment := fun _ => Some err |}.

End Previous.

(** A text made of braced pieces, each after a stretch of prose, and a
    last stretch of prose: [(prose, inside)] stands for the prose followed
    by the piece with [inside] between its braces. *)
Fixpoint join_segments (parts : list (jsstring * jsstring)) (tail : jsstring)
  : jsstring :=
  match parts with
  | [] => tail
  | (prose, inside) :: parts' =>
      prose ++ (123 :: inside ++ [125]) ++ join_segments parts' tail
  end.

Definition braced (part : jsstring * jsstring) : jsstring :=
  123 :: snd part ++ [125].




(** ** Objects *)

Lemma jsstring_eqb_eq (a b : jsstring) : jsstring_eqb a b = true -> a = b.
Proof.
  revert b; induction a as [|x a IH]; intros [|y b] H; simpl in H;
    try discriminate; [reflexivity|].
  apply andb_true_iff in H as [Hxy Hab].
  apply N.eqb_eq in Hxy. f_equal; auto.
Qed.

Lemma obj_get_set_same fs k v : obj_get (obj_set fs k v) k = v.
Proof.
  induction fs as [|[k' v'] fs IH]; simpl.
  - destruct (jsstring_eqb k k) eqn:E; [reflexivity|].
    exfalso. clear -E. induction k as [|x k IH]; simpl in E;
      [discriminate|]. rewrite N.eqb_refl in E. auto.
  - destruct (jsstring_eqb k' k) eqn:E; simpl; rewrite E; auto.
Qed.

Lemma obj_get_set_other fs k v k2 :
  jsstring_eqb k k2 = false -> obj_get (obj_set fs k v) k2 = obj_get fs k2.
Proof.
  intros Hne. induction fs as [|[k' v'] fs IH]; simpl.
  - rewrite Hne. reflexivity.
  - destruct (jsstring_eqb k' k) eqn:E; simpl.
    + apply jsstring_eqb_eq in E. subst k'. rewrite Hne. reflexivity.
    + destruct (jsstring_eqb k' k2); auto.
Qed.

Lemma has_required_fields_obj fs :
  has_required_fields (JObj fs) = inr (postable fs).
Proof.
  unfold has_required_fields, postable, ebind, get_prop.
  destruct (truthy (obj_get fs (str "body"))); [|reflexivity].
  destruct (truthy (obj_get fs (str "path"))); reflexivity.
Qed.

Lemma has_required_fields_true d :
  has_required_fields d = inr true ->
  exists fs, d = JObj fs /\ postable fs = true.
Proof.
  destruct d; try discriminate.
  intros H. rewrite has_required_fields_obj in H.
  eexists; split; [reflexivity|congruence].
Qed.

Lemma set_defaults_obj pr fs :
  set_defaults pr (JObj fs) =
  inr (JObj (obj_set
               (obj_set fs (str "commit_id")
                  (js_or (obj_get fs (str "commit_id")) (JStr (head_sha pr))))
               (str "side")
               (js_or (obj_get fs (str "side")) (JStr (str "RIGHT"))))).
Proof.
  unfold set_defaults, ebind, get_prop, set_prop.
  rewrite obj_get_set_other by reflexivity. reflexivity.
Qed.

Lemma request_of_obj pr fs : request_of pr (JObj fs) = inr (draft pr fs).
Proof.
  unfold request_of. rewrite set_defaults_obj.
  unfold ebind, review_comment_of, get_prop, draft.
  repeat first
    [ rewrite obj_get_set_same
    | rewrite (obj_get_set_other _ (str "side")) by reflexivity
    | rewrite (obj_get_set_other _ (str "commit_id")) by reflexivity ].
  reflexivity.
Qed.

Lemma drafts_of_segment_obj pr m fs :
  JSON_parse m = inr (JObj fs) ->
  drafts_of_segment pr m = if postable fs then [draft pr fs] else [].
Proof.
  intros H. unfold drafts_of_segment.
  rewrite H, has_required_fields_obj, request_of_obj.
  destruct (postable fs); reflexivity.
Qed.

Lemma review_comment_of_defaults pr fs d' :
  set_defaults pr (JObj fs) = inr d' ->
  review_comment_of d' = inr (draft pr fs) /\
  get_prop d' (str "path") = inr (obj_get fs (str "path")) /\
  get_prop d' (str "line") = inr (obj_get fs (str "line")).
Proof.
  intros H. pose proof (request_of_obj pr fs) as R.
  unfold request_of in R. rewrite H in R. simpl in R.
  split; [exact R|].
  rewrite set_defaults_obj in H. injection H as <-.
  unfold get_prop.
  rewrite !(obj_get_set_other _ (str "side")) by reflexivity.
  rewrite !(obj_get_set_other _ (str "commit_id")) by reflexivity.
  split; reflexivity.
Qed.

(** ** What a match parses to

    A match begins with an opening brace, so when it parses, it parses to
    an object: reading a property of the parsed segment never throws. *)

Lemma scan_opening_brace (open : option jsstring) (s : jsstring) (m : jsstring) :
  In m (scan open s) ->
  match open with
  | None => True
  | Some a => exists a', rev a = 123 :: a'
  end ->
  exists rest, m = 123 :: rest.
Proof.
  revert open. induction s as [|c s IH]; intros open Hin Hopen;
    [destruct Hin|].
  simpl in Hin. destruct open as [a|].
  - destruct Hopen as [a' Ha'].
    destruct (c =? 125).
    + destruct Hin as [<-|Hin]; [|exact (IH None Hin I)].
      exists (a' ++ [c]). simpl. rewrite Ha'. reflexivity.
    + apply (IH _ Hin). exists (a' ++ [c]). simpl. rewrite Ha'. reflexivity.
  - destruct (c =? 123) eqn:E; [|exact (IH None Hin I)].
    apply N.eqb_eq in E. subst c.
    apply (IH _ Hin). exists []. reflexivity.
Qed.

Lemma bottom_is_object_push f g stk :
  bottom_is_object (f :: stk) = true ->
  bottom_is_object (g :: f :: stk) = true.
Proof. destruct g; intros H; exact H. Qed.

Lemma bottom_is_object_pop f stk :
  bottom_is_object (f :: stk) = true ->
  stk <> [] -> bottom_is_object stk = true.
Proof. destruct stk as [|g stk]; [congruence|]. destruct f; auto. Qed.

Lemma bottom_is_object_top f f' stk :
  bottom_is_object (f :: stk) = true ->
  is_object (match f with FObj _ _ => JObj [] | FArr _ => JNull end)
  = is_object (match f' with FObj _ _ => JObj [] | FArr _ => JNull end) ->
  bottom_is_object (f' :: stk) = true.
Proof.
  destruct stk as [|g stk]; [|destruct f, f'; auto].
  destruct f, f'; simpl; congruence.
Qed.

Lemma parse_to_object (n : nat) :
  forall ts, (List.length ts < n)%nat ->
    (forall stk v,
        parse_val stk ts = Some v ->
        bottom_is_object stk = true -> is_object v = true) /\
    (forall v0 stk v,
        deliver v0 stk ts = Some v ->
        match stk with
        | [] => is_object v0 = true
        | _ => bottom_is_object stk = true
        end -> is_object v = true).
Proof.
  induction n as [|n IH]; intros ts Hlen; [lia|].
  assert (Hdeliver : forall v0 stk v,
             deliver v0 stk ts = Some v ->
             match stk with
             | [] => is_object v0 = true
             | _ => bottom_is_object stk = true
             end -> is_object v = true).
  { intros v0 stk v H Hstk.
    destruct stk as [|[items|fields k] stk'].
    - destruct ts; simpl in H; [|discriminate]. congruence.
    - destruct ts as [|t ts']; [discriminate|]. simpl in Hlen.
      destruct t; simpl in H; try discriminate.
      + destruct (IH ts' ltac:(lia)) as [_ Hd].
        apply (Hd _ _ _ H).
        destruct stk'; [discriminate|].
        eapply bottom_is_object_pop; eauto. discriminate.
      + destruct (IH ts' ltac:(lia)) as [Hp _].
        apply (Hp _ _ H).
        eapply bottom_is_object_top; eauto.
    - destruct ts as [|t ts']; [discriminate|]. simpl in Hlen.
      destruct t; simpl in H; try discriminate.
      + destruct (IH ts' ltac:(lia)) as [_ Hd].
        apply (Hd _ _ _ H).
        destruct stk'; [reflexivity|].
        eapply bottom_is_object_pop; eauto. discriminate.
      + destruct ts' as [|[] [|[] ts'']]; try discriminate.
        simpl in Hlen.
        destruct (IH ts'' ltac:(lia)) as [Hp _].
        apply (Hp _ _ H).
        eapply bottom_is_object_top; eauto. }
  split; [|exact Hdeliver].
  intros stk v H Hstk.
  assert (Hne : match stk with
                | [] => is_object JNull = true
                | _ => bottom_is_object stk = true
                end).
  { destruct stk; [discriminate|exact Hstk]. }
  destruct ts as [|t ts']; [discriminate|]. simpl in Hlen.
  destruct (IH ts' ltac:(lia)) as [Hp Hd].
  assert (Hscalar : forall v0, deliver v0 stk ts' = Some v ->
                               is_object v = true).
  { intros v0 H0. apply (Hd _ _ _ H0).
    destruct stk; [discriminate|exact Hstk]. }
  destruct t; simpl in H; try discriminate; eauto.
  - destruct ts' as [|t' ts'']; [discriminate|].
    destruct t'; try discriminate.
    + simpl in Hlen. destruct (IH ts'' ltac:(lia)) as [_ Hd'].
      apply (Hd' _ _ _ H). destruct stk; [discriminate|exact Hstk].
    + destruct ts'' as [|[] ts3]; try discriminate.
      simpl in Hlen. destruct (IH ts3 ltac:(lia)) as [Hp' _].
      apply (Hp' _ _ H). destruct stk; [discriminate|].
      apply bottom_is_object_push. exact Hstk.
  - assert (Hpush : bottom_is_object (FArr [] :: stk) = true).
    { destruct stk; [discriminate|].
      apply bottom_is_object_push. exact Hstk. }
    destruct ts' as [|t' ts'']; [discriminate|].
    destruct t'; try (apply (Hp _ _ H); exact Hpush).
    simpl in Hlen. destruct (IH ts'' ltac:(lia)) as [_ Hd'].
    apply (Hd' _ _ _ H). destruct stk; [discriminate|exact Hstk].
Qed.

Lemma JSON_parse_brace rest v :
  JSON_parse (123 :: rest) = inr v -> exists fs, v = JObj fs.
Proof.
  unfold JSON_parse. simpl.
  destruct (lex rest) as [ts|]; [|discriminate]. simpl.
  destruct ts as [|t ts']; [discriminate|].
  assert (Hobj : forall v0 stk ts v1,
             deliver v0 stk ts = Some v1 ->
             match stk with
             | [] => is_object v0 = true
             | _ => bottom_is_object stk = true
             end -> is_object v1 = true).
  { intros v0 stk ts v1.
    apply (parse_to_object (S (List.length ts)) ts). lia. }
  assert (Hval : forall stk ts v1,
             parse_val stk ts = Some v1 ->
             bottom_is_object stk = true -> is_object v1 = true).
  { intros stk ts v1.
    apply (parse_to_object (S (List.length ts)) ts). lia. }
  assert (Hv : forall o, o = Some v -> is_object v = true ->
                         exists fs, v = JObj fs).
  { intros _ _ Hv. destruct v; try discriminate. eexists; reflexivity. }
  destruct t; try discriminate.
  - destruct (deliver (JObj []) [] ts') eqn:E; [|discriminate].
    intros H. injection H as <-. apply (Hv _ eq_refl).
    exact (Hobj _ _ _ _ E eq_refl).
  - destruct ts' as [|[] ts'']; try discriminate.
    destruct (parse_val [FObj [] s] ts'') eqn:E; [|discriminate].
    intros H. injection H as <-. apply (Hv _ eq_refl).
    exact (Hval _ _ _ E eq_refl).
Qed.

Lemma match_parses_to_object s ms m d :
  string_match s = Some ms -> In m ms -> JSON_parse m = inr d ->
  exists fs, d = JObj fs.
Proof.
  unfold string_match. intros Hm Hin HP.
  assert (Hin' : In m (scan None s)).
  { destruct (scan None s); [discriminate|]. injection Hm as <-. exact Hin. }
  destruct (scan_opening_brace None s m Hin' I) as [rest ->].
  exact (JSON_parse_brace _ _ HP).
Qed.

(** ** The loop body *)

Section Loop.

Variable services : env.
Variable pr : pull.

Lemma post_segment_outcome (m : jsstring) (tr : list event) :
  exists evs,
    post_segment services pr m tr = (inr tt, tr ++ evs) /\
    segment_outcome pr m evs.
Proof.
  unfold post_segment, try_catch, bind, lift, emit.
  destruct (JSON_parse m) as [err|d] eqn:HP.
  { exists [Warning err]. split; [reflexivity|]. now constructor. }
  destruct (has_required_fields d) as [err|[|]] eqn:HV.
  { exists [Warning err]. split; [reflexivity|].
    eapply seg_unreadable; eauto. }
  2:{ exists []. rewrite app_nil_r. split; [reflexivity|].
      eapply seg_skipped; eauto. }
  destruct (has_required_fields_true _ HV) as (fs & -> & Hpost).
  destruct (set_defaults pr (JObj fs)) as [err|d'] eqn:HD.
  { rewrite set_defaults_obj in HD. discriminate. }
  destruct (review_comment_of_defaults _ _ _ HD) as (-> & -> & ->).
  unfold createReviewComment, call, ret, interpolate, throw.
  destruct (pulls_createReviewComment services tr (draft pr fs))
    as [err|] eqn:HS; simpl.
  { eexists. split; [rewrite <- app_assoc; reflexivity|].
    now apply seg_refused. }
  destruct (stringable (obj_get fs (str "path"))) eqn:S1; simpl.
  2:{ eexists. split; [rewrite <- app_assoc; reflexivity|].
      apply seg_posted_unlogged; auto. }
  destruct (stringable (obj_get fs (str "line"))) eqn:S2; simpl.
  2:{ eexists. split; [rewrite <- app_assoc; reflexivity|].
      apply seg_posted_unlogged; auto. }
  eexists. split; [rewrite <- app_assoc; reflexivity|].
  now apply seg_posted.
Qed.

Lemma for_each_outcome (ms : list jsstring) (tr : list event) :
  exists evs,
    for_each ms (post_segment services pr) tr = (inr tt, tr ++ evs) /\
    loop_outcome pr ms evs.
Proof.
  revert tr. induction ms as [|m ms IH]; intros tr; simpl.
  - exists []. rewrite app_nil_r. split; [reflexivity|constructor].
  - unfold bind.
    destruct (post_segment_outcome m tr) as (evs & -> & Hseg).
    destruct (IH (tr ++ evs)) as (evs' & -> & Hloop).
    exists (evs ++ evs'). rewrite app_assoc. split; [reflexivity|].
    now constructor.
Qed.

End Loop.

(** ** Traces *)

Lemma failures_warned_app (a b : list event) :
  failures_warned a -> failures_warned b -> failures_warned (a ++ b).
Proof.
  induction a as [|ev a IH]; simpl; [auto|].
  destruct ev as [l|err|r failure|n v|err]; auto.
  destruct r; auto.
  destruct failure as [err|]; auto.
  intros [[rest' ->] Ha] Hb. split; [|auto].
  exists (rest' ++ b). reflexivity.
Qed.

Lemma failures_warned_nth (tr : list event) :
  failures_warned tr ->
  forall i c err,
    nth_error tr i = Some (Call (PullsCreateReviewComment c) (Some err)) ->
    nth_error tr (S i) = Some (Warning err).
Proof.
  induction tr as [|ev tr IH]; intros H i c err Hi.
  - destruct i; discriminate.
  - destruct i as [|i].
    + simpl in Hi. injection Hi as ->. simpl in H.
      destruct H as [[rest' ->] _]. reflexivity.
    + simpl in Hi. change (nth_error tr (S i) = Some (Warning err)).
      apply (IH) with (c := c); [|exact Hi].
      simpl in H. destruct ev as [l|e0|r failure|n v|e0]; auto.
      destruct r; auto. destruct failure; [apply H|auto].
Qed.

Section Projections.

Variable pr : pull.

Lemma segment_inline m evs :
  segment_outcome pr m evs -> inline_comments evs = drafts_of_segment pr m.
Proof.
  intros H. unfold drafts_of_segment.
  destruct H as [err HP|d err HP HV|d HP HV|fs HP Hp _ _|fs HP Hp _|fs err HP Hp];
    rewrite HP;
    try rewrite has_required_fields_obj, Hp, request_of_obj;
    try rewrite HV; reflexivity.
Qed.

Lemma segment_discussion m evs :
  segment_outcome pr m evs ->
  discussion_comments evs = [] /\ completions evs = [] /\ reported evs = [].
Proof. intros H. destruct H; repeat split; reflexivity. Qed.

Lemma segment_failures_warned m evs :
  segment_outcome pr m evs -> failures_warned evs.
Proof.
  intros H. destruct H; simpl; auto.
  split; [eexists; reflexivity|exact I].
Qed.

Lemma loop_inline ms evs :
  loop_outcome pr ms evs ->
  inline_comments evs = flat_map (drafts_of_segment pr) ms.
Proof.
  induction 1 as [|m ms evs evs' Hseg _ IH]; [reflexivity|].
  unfold inline_comments in *. rewrite flat_map_app. simpl.
  f_equal; [exact (segment_inline _ _ Hseg)|exact IH].
Qed.

Lemma loop_discussion ms evs :
  loop_outcome pr ms evs ->
  discussion_comments evs = [] /\ completions evs = [] /\ reported evs = [].
Proof.
  induction 1 as [|m ms evs evs' Hseg _ (I1 & I2 & I3)];
    [repeat split; reflexivity|].
  destruct (segment_discussion _ _ Hseg) as (S1 & S2 & S3).
  unfold discussion_comments, completions, reported in *.
  rewrite !flat_map_app, S1, S2, S3, I1, I2, I3. repeat split; reflexivity.
Qed.

Lemma loop_failures_warned ms evs :
  loop_outcome pr ms evs -> failures_warned evs.
Proof.
  induction 1 as [|m ms evs evs' Hseg _ IH]; [exact I|].
  apply failures_warned_app; [exact (segment_failures_warned _ _ Hseg)|auto].
Qed.

End Projections.

(** ** From the answer to the end of the run *)

Section Run.

Variable cfg : inputs.
Variable services : env.
Variable pr : pull.

Lemma string_match_nonempty s ms :
  string_match s = Some ms -> (0 <? List.length ms)%nat = true.
Proof.
  unfold string_match. destruct (scan None s); [discriminate|].
  intros H. injection H as <-. reflexivity.
Qed.

Lemma interpret_segments s ms tr :
  string_match s = Some ms ->
  interpret services pr (JStr s) tr =
  for_each ms (post_segment services pr) tr.
Proof.
  intros H. unfold interpret, bind, lift, try_catch, match_braces, ret.
  simpl. rewrite H, (string_match_nonempty _ _ H).
  destruct (for_each_outcome services pr ms tr) as (evs & -> & _).
  reflexivity.
Qed.

Lemma trace_answered feedback :
  model_answers cfg services pr feedback ->
  stringable feedback = true ->
  exists files existing discussion,
    trace cfg services =
    snd (interpret services pr feedback
           (preamble cfg pr files existing discussion feedback))
    ++ closing (fst (interpret services pr feedback
                       (preamble cfg pr files existing discussion feedback))).
Proof.
  intros (H0 & H1 & files & existing & discussion & H2 & H3 & H4 & H5) Hs.
  exists files, existing, discussion.
  unfold trace, run, try_catch, bind, call, emit, lift, interpolate, ret.
  rewrite H0, H1, H2, H3, H4, H5, Hs. simpl.
  fold (preamble cfg pr files existing discussion feedback).
  destruct (interpret services pr feedback _) as [[err|[]] tr']; simpl;
    [reflexivity|].
  rewrite <- app_assoc. reflexivity.
Qed.

(** A textual answer with at least one match: the run is the preamble,
    what the loop did, and the report of success. *)
Lemma trace_segments s ms :
  model_answers cfg services pr (JStr s) ->
  string_match s = Some ms ->
  exists files existing discussion evs,
    loop_outcome pr ms evs /\
    trace cfg services =
    preamble cfg pr files existing discussion (JStr s) ++ evs
    ++ closing (inr tt).
Proof.
  intros Ha Hm.
  destruct (trace_answered _ Ha eq_refl)
    as (files & existing & discussion & ->).
  rewrite (interpret_segments _ _ _ Hm).
  destruct (for_each_outcome services pr ms
              (preamble cfg pr files existing discussion (JStr s)))
    as (evs & -> & Hloop).
  exists files, existing, discussion, evs. split; [exact Hloop|].
  reflexivity.
Qed.

End Run.

(** ** Examples *)

(** The lazy star stops at the first closing brace, so a nested object is
    cut short, and a brace that is never closed matches nothing. *)
Example match_nested :
  string_match (str "see {a {b} c} and {d")
  = Some [str "{a {b}"].
Proof. reflexivity. Qed.

Example match_none : string_match (str "no braces here") = None.
Proof. reflexivity. Qed.

Example parse_segment : JSON_parse segment_b = inr (JObj fields_b).
Proof. reflexivity. Qed.

(** A repeated key keeps its place and takes the last value. *)
Example parse_repeated_key :
  JSON_parse (json "{'a':1,'b':[true,null],'a':-2.50e1}")
  = inr (JObj [(str "a", JNum (-250) (-1));
               (str "b", JArr [JBool true; JNull])]).
Proof. reflexivity. Qed.

Example parse_escapes :
  JSON_parse (json "'a\u0041\n'") = inr (JStr [97; 65; 10]).
Proof. reflexivity. Qed.

Example parse_rejects :
  map JSON_parse
      [json "{'a':1,}"; json "01"; json "{'a' 1}"; json "{a:1}"; json "1.";
       json "[1 2]"; json "'open"; []; json "{'a':1} x"]
  = repeat (inl SyntaxError) 9.
Proof. reflexivity. Qed.

(** A decimal too small for a double is zero, hence falsy. *)
Example tiny_number_is_falsy :
  JSON_parse (json "1e-400") = inr (JNum 1 (-400)) /\
  truthy (JNum 1 (-400)) = false /\ truthy (JNum 5 (-324)) = true.
Proof. repeat split; reflexivity. Qed.

Example truthiness :
  map truthy [JUndef; JNull; JBool false; JNum 0 0; JStr []; JStr (str "0");
              JArr []; JObj []]
  = [false; false; false; false; false; true; true; true].
Proof. reflexivity. Qed.

(** A verdict that arrives as JSON text is not recognized: [is_ok] is read
    off the string, the text is one match, which parses but has no path,
    and nothing is posted. *)
Example verdict_as_json_text :
  get_prop (JStr (json "{'is_ok':true,'body':'Everything looks good!'}"))
           (str "is_ok") = inr JUndef /\
  discussion_comments
    (trace example_inputs
       (example_services
          (JStr (json "{'is_ok':true,'body':'Everything looks good!'}"))
          accept_all)) = [] /\
  inline_comments
    (trace example_inputs
       (example_services
          (JStr (json "{'is_ok':true,'body':'Everything looks good!'}"))
          accept_all)) = [] /\
  reported
    (trace example_inputs
       (example_services
          (JStr (json "{'is_ok':true,'body':'Everything looks good!'}"))
          accept_all)) = success.
Proof. vm_compute. repeat split; reflexivity. Qed.

(** A structured answer that is not a positive verdict has no [match]
    method: the inner catch posts the answer as it is. *)
Example structured_negative_answer :
  discussion_comments
    (trace example_inputs
       (example_services (JObj ((str "is_ok", JBool false) :: fields_a))
                         accept_all))
  = [JObj ((str "is_ok", JBool false) :: fields_a)] /\
  inline_comments
    (trace example_inputs
       (example_services (JObj ((str "is_ok", JBool false) :: fields_a))
                         accept_all))
  = [].
Proof. vm_compute. repeat split; reflexivity. Qed.

Lemma example_answers feedback refuse :
  model_answers example_inputs (example_services feedback refuse)
                example_pull feedback.
Proof.
  split; [reflexivity|]. split; [reflexivity|].
  exists [], [], []. repeat split; reflexivity.
Defined.

(** ** The answer without a match *)

Lemma interpret_no_match services pr s tr :
  string_match s = None ->
  issues_createComment services tr (JStr s) = None ->
  interpret services pr (JStr s) tr =
  (inr tt, tr ++ [Call (IssuesCreateComment (JStr s)) None;
                  Info PostedRegularNoJson]).
Proof.
  intros Hm Hacc.
  unfold interpret, bind, lift, try_catch, match_braces, ret, createComment,
    call, emit.
  simpl. rewrite Hm, Hacc. simpl. rewrite <- app_assoc. reflexivity.
Qed.

(** A textual answer in which the expression matches nothing is posted
    whole, as one discussion comment. *)
Lemma fallback_when_nothing_matches cfg services pr s :
  model_answers cfg services pr (JStr s) ->
  string_match s = None ->
  (forall tr body, issues_createComment services tr body = None) ->
  discussion_comments (trace cfg services) = [JStr s] /\
  inline_comments (trace cfg services) = [] /\
  reported (trace cfg services) = success.
Proof.
  intros Ha Hm Hacc.
  destruct (trace_answered _ _ _ _ Ha eq_refl)
    as (files & existing & discussion & ->).
  rewrite (interpret_no_match _ _ _ _ Hm (Hacc _ _)).
  repeat split; reflexivity.
Qed.

(** ** The answer with matches *)

Lemma trace_segments_summary cfg services pr s ms :
  model_answers cfg services pr (JStr s) ->
  string_match s = Some ms ->
  inline_comments (trace cfg services) = flat_map (drafts_of_segment pr) ms /\
  discussion_comments (trace cfg services) = [] /\
  reported (trace cfg services) = success /\
  failures_warned (trace cfg services).
Proof.
  intros Ha Hm.
  destruct (trace_segments _ _ _ _ _ Ha Hm)
    as (files & existing & discussion & evs & Hloop & ->).
  destruct (loop_discussion _ _ _ Hloop) as (D1 & _ & D3).
  pose proof (loop_inline _ _ _ Hloop) as D0.
  pose proof (loop_failures_warned _ _ _ Hloop) as D4.
  unfold inline_comments, discussion_comments, reported in *.
  rewrite !flat_map_app, D0, D1, D3. simpl.
  rewrite app_nil_r. repeat split.
  change (failures_warned (evs ++ closing (inr tt))).
  apply failures_warned_app; [exact D4|simpl; exact I].
Qed.



Lemma flat_map_nil {A B : Type} (f : A -> list B) (l : list A) :
  (forall x, In x l -> f x = []) -> flat_map f l = [].
Proof.
  induction l as [|x l IH]; intros H; [reflexivity|].
  simpl. rewrite (H x (or_introl eq_refl)), IH; [reflexivity|].
  intros y Hy. apply H. right. exact Hy.
Qed.

Lemma valid_drafts pr ms fss :
  Forall2 (fun m fs => JSON_parse m = inr (JObj fs) /\
                       has_required_fields (JObj fs) = inr true) ms fss ->
  flat_map (drafts_of_segment pr) ms = map (draft pr) fss.
Proof.
  induction 1 as [|m fs ms fss [HP HV] _ IH]; [reflexivity|].
  simpl. rewrite IH, (drafts_of_segment_obj _ _ _ HP).
  rewrite has_required_fields_obj in HV. injection HV as ->. reflexivity.
Qed.


Lemma post_segment_inline services pr m tr :
  fst (post_segment services pr m tr) = inr tt /\
  inline_comments (snd (post_segment services pr m tr)) =
  inline_comments tr ++ drafts_of_segment pr m.
Proof.
  destruct (post_segment_outcome services pr m tr) as (evs & -> & Hseg).
  split; [reflexivity|]. simpl.
  unfold inline_comments at 1. rewrite flat_map_app.
  f_equal. exact (segment_inline _ _ _ Hseg).
Qed.

(** ** The claims *)

(** C1. A response recognized as a positive verdict -- its [is_ok] flag is
    true, or it is the approval phrase as plain text -- leads to exactly one
    discussion comment, whose body is the verdict's [body] (for the phrase,
    the text itself), to no inline comment, and to the end of the run, which
    reports success.  The response is one the action can log, and the
    source-control service accepts the comment. *)
Theorem positive_verdict_one_discussion_comment cfg services pr feedback :
  model_answers cfg services pr feedback ->
  stringable feedback = true ->
  (forall tr body, issues_createComment services tr body = None) ->
  (forall is_ok,
      get_prop feedback (str "is_ok") = inr is_ok ->
      truthy is_ok = true ->
      exists body,
        get_prop feedback (str "body") = inr body /\
        discussion_comments (trace cfg services) = [body] /\
        inline_comments (trace cfg services) = [] /\
        reported (trace cfg services) = success) /\
  (feedback = JStr approval_phrase ->
   discussion_comments (trace cfg services) = [JStr approval_phrase] /\
   inline_comments (trace cfg services) = [] /\
   reported (trace cfg services) = success).
Proof.
  intros Ha Hs Hacc. split.
  - intros is_ok Hget Htrue.
    destruct (trace_answered _ _ _ _ Ha Hs)
      as (files & existing & discussion & ->).
    destruct feedback as [| | | | |items|fs]; simpl in Hget;
      try discriminate;
      try (injection Hget as <-; discriminate).
    injection Hget as <-.
    exists (obj_get fs (str "body")). split; [reflexivity|].
    unfold interpret, bind, lift, createComment, call, emit, get_prop.
    rewrite Htrue, Hacc. simpl.
    repeat split; reflexivity.
  - intros ->.
    apply (fallback_when_nothing_matches cfg services pr); auto.
Qed.

(** C1 at a structured verdict whose body is LGTM. *)
Lemma positive_verdict_witness :
  (forall is_ok,
      get_prop positive_verdict (str "is_ok") = inr is_ok ->
      truthy is_ok = true ->
      exists body,
        get_prop positive_verdict (str "body") = inr body /\
        discussion_comments
          (trace example_inputs (example_services positive_verdict accept_all))
        = [body] /\
        inline_comments
          (trace example_inputs (example_services positive_verdict accept_all))
        = [] /\
        reported
          (trace example_inputs (example_services positive_verdict accept_all))
        = success) /\
  (positive_verdict = JStr approval_phrase ->
   discussion_comments
     (trace example_inputs (example_services positive_verdict accept_all))
   = [JStr approval_phrase] /\
   inline_comments
     (trace example_inputs (example_services positive_verdict accept_all))
   = [] /\
   reported
     (trace example_inputs (example_services positive_verdict accept_all))
   = success).
Proof.
  apply (positive_verdict_one_discussion_comment
           example_inputs (example_services positive_verdict accept_all)
           example_pull positive_verdict).
  - apply example_answers.
  - reflexivity.
  - intros tr body. reflexivity.
Defined.

(** C2 (the code departs from it).  A response with no recoverable segment
    and no positive signal is to be posted whole as one fallback comment.
    Here the response is prose that quotes a braced statement: the one
    match does not parse, a warning is recorded, and the run reports
    success with no comment of any kind. *)
Theorem unparseable_match_suppresses_fallback :
  string_match prose_text = Some [str "{ return; }"] /\
  JSON_parse (str "{ return; }") = inl SyntaxError /\
  get_prop (JStr prose_text) (str "is_ok") = inr JUndef /\
  discussion_comments
    (trace example_inputs (example_services (JStr prose_text) accept_all))
  = [] /\
  inline_comments
    (trace example_inputs (example_services (JStr prose_text) accept_all))
  = [] /\
  warnings
    (trace example_inputs (example_services (JStr prose_text) accept_all))
  = [SyntaxError] /\
  reported
    (trace example_inputs (example_services (JStr prose_text) accept_all))
  = success.
Proof. vm_compute. repeat split; reflexivity. Qed.

(** C6. When a context request fails, the completion model is not called,
    no comment is posted, and the run reports failure with that error. *)
Theorem context_fetch_failure_is_fatal cfg services err :
  getOctokit services = None ->
  fetch_failure services = Some err ->
  completions (trace cfg services) = [] /\
  discussion_comments (trace cfg services) = [] /\
  inline_comments (trace cfg services) = [] /\
  reported (trace cfg services) = [inl err].
Proof.
  intros H0 Hf.
  unfold fetch_failure in Hf.
  unfold trace, run, try_catch, bind, call, emit, lift.
  rewrite H0. simpl.
  destruct (pulls_get services) as [e1|pr];
    [injection Hf as ->; repeat split; reflexivity|].
  simpl.
  destruct (pulls_listFiles services) as [e2|files];
    [injection Hf as ->; repeat split; reflexivity|].
  simpl.
  destruct (pulls_listReviewComments services) as [e3|existing];
    [injection Hf as ->; repeat split; reflexivity|].
  simpl.
  destruct (issues_listComments services) as [e4|discussion];
    [injection Hf as ->; repeat split; reflexivity|].
  discriminate.
Qed.

(** C6 at a pull request that does not exist. *)
Lemma context_fetch_failure_witness :
  completions (trace example_inputs missing_pull_services) = [] /\
  discussion_comments (trace example_inputs missing_pull_services) = [] /\
  inline_comments (trace example_inputs missing_pull_services) = [] /\
  reported (trace example_inputs missing_pull_services)
  = [inl (RequestError (str "Not Found"))].
Proof.
  apply (context_fetch_failure_is_fatal example_inputs missing_pull_services
           (RequestError (str "Not Found"))); reflexivity.
Defined.

(** C4. The loop over the segments has no cap: the limit of three comments
    is only an instruction in the prompt.  For every N, a response whose
    matches are N segments that parse and pass the validation leads to N
    inline-comment submissions. *)
Theorem no_cap_on_submissions cfg services pr s ms fss :
  model_answers cfg services pr (JStr s) ->
  string_match s = Some ms ->
  Forall2 (fun m fs => JSON_parse m = inr (JObj fs) /\
                       has_required_fields (JObj fs) = inr true) ms fss ->
  List.length (inline_comments (trace cfg services)) = List.length ms.
Proof.
  intros Ha Hm Hvalid.
  destruct (trace_segments_summary _ _ _ _ _ Ha Hm) as (-> & _).
  rewrite (valid_drafts pr _ _ Hvalid), length_map.
  symmetry. exact (Forall2_length Hvalid).
Qed.

(** C4 at a response with four valid segments. *)
Lemma no_cap_witness :
  List.length
    (inline_comments
       (trace example_inputs
          (example_services (JStr four_segments) accept_all)))
  = List.length [segment_a; segment_b; segment_a; segment_b].
Proof.
  apply (no_cap_on_submissions example_inputs
           (example_services (JStr four_segments) accept_all)
           example_pull four_segments
           [segment_a; segment_b; segment_a; segment_b]
           [fields_a; fields_b; fields_a; fields_b]).
  - apply example_answers.
  - reflexivity.
  - repeat constructor.
Defined.


(** C7. When the service refuses an inline comment, the run goes on: every
    draft is still submitted, in the order of the segments and whatever
    was refused before; each refused submission is followed at once by a
    warning that carries its error; and the run reports success. *)
Theorem failed_submission_is_not_fatal cfg services pr s ms :
  model_answers cfg services pr (JStr s) ->
  string_match s = Some ms ->
  inline_comments (trace cfg services) = flat_map (drafts_of_segment pr) ms /\
  (forall i c err,
      nth_error (trace cfg services) i
      = Some (Call (PullsCreateReviewComment c) (Some err)) ->
      nth_error (trace cfg services) (S i) = Some (Warning err)) /\
  reported (trace cfg services) = success.
Proof.
  intros Ha Hm.
  destruct (trace_segments_summary _ _ _ _ _ Ha Hm) as (Hi & _ & Hr & Hw).
  split; [exact Hi|]. split; [|exact Hr].
  exact (failures_warned_nth _ Hw).
Qed.

(** C7 at two valid segments, the first of which the service refuses. *)
Lemma failed_submission_witness :
  inline_comments
    (trace example_inputs
       (example_services (JStr (segment_b ++ sep ++ segment_a))
                         refuse_line_99))
  = flat_map (drafts_of_segment example_pull) [segment_b; segment_a] /\
  (forall i c err,
      nth_error
        (trace example_inputs
           (example_services (JStr (segment_b ++ sep ++ segment_a))
                             refuse_line_99)) i
      = Some (Call (PullsCreateReviewComment c) (Some err)) ->
      nth_error
        (trace example_inputs
           (example_services (JStr (segment_b ++ sep ++ segment_a))
                             refuse_line_99)) (S i)
      = Some (Warning err)) /\
  reported
    (trace example_inputs
       (example_services (JStr (segment_b ++ sep ++ segment_a))
                         refuse_line_99))
  = success.
Proof.
  apply (failed_submission_is_not_fatal example_inputs
           (example_services (JStr (segment_b ++ sep ++ segment_a))
                             refuse_line_99)
           example_pull (segment_b ++ sep ++ segment_a)
           [segment_b; segment_a]).
  - apply example_answers.
  - reflexivity.
Defined.

(** C8. When the expression matches at least once and every match is
    rejected -- it does not parse, or it parses to a value without body,
    path or line -- no comment is posted, inline or fallback, and the run
    still sets the output [success] to [true]. *)
Theorem rejected_matches_post_nothing cfg services pr s ms :
  model_answers cfg services pr (JStr s) ->
  string_match s = Some ms ->
  Forall (fun m =>
            (exists err, JSON_parse m = inl err) \/
            (exists commentData,
                JSON_parse m = inr commentData /\
                (get_prop commentData (str "body") = inr JUndef \/
                 get_prop commentData (str "path") = inr JUndef \/
                 get_prop commentData (str "line") = inr JUndef))) ms ->
  ms <> [] /\
  inline_comments (trace cfg services) = [] /\
  discussion_comments (trace cfg services) = [] /\
  reported (trace cfg services) = success.
Proof.
  intros Ha Hm Hrej.
  destruct (trace_segments_summary _ _ _ _ _ Ha Hm) as (Hi & Hd & Hr & _).
  split.
  { pose proof (string_match_nonempty _ _ Hm) as Hn.
    destruct ms; [discriminate|congruence]. }
  split; [|split; assumption].
  rewrite Hi. apply flat_map_nil. intros m Hin.
  rewrite Forall_forall in Hrej.
  destruct (Hrej m Hin) as [[err HP]|(d & HP & Hmiss)].
  - unfold drafts_of_segment. rewrite HP. reflexivity.
  - destruct (match_parses_to_object _ _ _ _ Hm Hin HP) as [fs ->].
    rewrite (drafts_of_segment_obj _ _ _ HP). unfold postable.
    simpl in Hmiss.
    destruct Hmiss as [H|[H|H]]; injection H as ->; simpl;
      rewrite ?andb_false_r; reflexivity.
Qed.

(** C8 at a segment that does not parse and one without path and line. *)
Lemma rejected_matches_witness :
  [segment_broken; segment_no_anchor] <> [] /\
  inline_comments
    (trace example_inputs
       (example_services (JStr (segment_broken ++ sep ++ segment_no_anchor))
                         accept_all))
  = [] /\
  discussion_comments
    (trace example_inputs
       (example_services (JStr (segment_broken ++ sep ++ segment_no_anchor))
                         accept_all))
  = [] /\
  reported
    (trace example_inputs
       (example_services (JStr (segment_broken ++ sep ++ segment_no_anchor))
                         accept_all))
  = success.
Proof.
  apply (rejected_matches_post_nothing example_inputs
           (example_services
              (JStr (segment_broken ++ sep ++ segment_no_anchor)) accept_all)
           example_pull (segment_broken ++ sep ++ segment_no_anchor)
           [segment_broken; segment_no_anchor]).
  - apply example_answers.
  - reflexivity.
  - constructor; [left; exists SyntaxError; reflexivity|].
    constructor; [|constructor].
    right. exists (JObj [(str "body", JStr (str "Needs a path"))]).
    split; [reflexivity|]. right. left. reflexivity.
Defined.

(** C9. The validation tests truthiness, not presence: a segment that
    parses to an object whose body is the empty string, or whose line is
    zero, or whose path is the empty string, is skipped in silence -- the
    loop body submits nothing, logs nothing, and leaves the trace as it
    was. *)
Theorem falsy_field_skipped_silently services pr m fs tr :
  JSON_parse m = inr (JObj fs) ->
  obj_get fs (str "body") = JStr [] \/
  (exists mant e,
      obj_get fs (str "line") = JNum mant e /\ num_is_zero mant e = true) \/
  obj_get fs (str "path") = JStr [] ->
  post_segment services pr m tr = (inr tt, tr).
Proof.
  intros HP Hfalsy.
  assert (Hp : postable fs = false).
  { unfold postable.
    destruct Hfalsy as [ -> | [ (mant & e & -> & Hz) | -> ] ]; simpl;
      rewrite ?Hz, ?andb_false_r; reflexivity. }
  unfold post_segment, try_catch, bind, lift, ret.
  rewrite HP, has_required_fields_obj, Hp. reflexivity.
Qed.

(** C9 at a segment whose line is 0. *)
Lemma falsy_field_witness :
  post_segment (example_services (JStr segment_line_zero) accept_all)
               example_pull segment_line_zero []
  = (inr tt, []).
Proof.
  apply (falsy_field_skipped_silently
           (example_services (JStr segment_line_zero) accept_all)
           example_pull segment_line_zero fields_line_zero []).
  - reflexivity.
  - right. left. exists 0%Z, 0%Z. split; reflexivity.
Defined.

(** C10. For a segment that parses and passes the validation, the loop
    body submits one request, in which body, path, line, start_line and
    start_side are the parsed values, untouched; only commit_id and side
    have a default.  In particular a segment without start_side is
    submitted without one, whatever its start_line. *)
Theorem only_commit_id_and_side_defaulted services pr m fs tr :
  JSON_parse m = inr (JObj fs) ->
  has_required_fields (JObj fs) = inr true ->
  exists c,
    request_of pr (JObj fs) = inr c /\
    inline_comments (snd (post_segment services pr m tr))
    = inline_comments tr ++ [c] /\
    rc_body c = obj_get fs (str "body") /\
    rc_path c = obj_get fs (str "path") /\
    rc_line c = obj_get fs (str "line") /\
    rc_start_line c = obj_get fs (str "start_line") /\
    rc_start_side c = obj_get fs (str "start_side") /\
    rc_commit_id c
    = js_or (obj_get fs (str "commit_id")) (JStr (head_sha pr)) /\
    rc_side c = js_or (obj_get fs (str "side")) (JStr (str "RIGHT")) /\
    (obj_get fs (str "start_side") = JUndef -> rc_start_side c = JUndef).
Proof.
  intros HP HV. exists (draft pr fs).
  split; [apply request_of_obj|]. split.
  - destruct (post_segment_inline services pr m tr) as (_ & ->).
    rewrite (drafts_of_segment_obj _ _ _ HP).
    rewrite has_required_fields_obj in HV. injection HV as ->. reflexivity.
  - repeat split. intros H. exact H.
Qed.

(** C10 at a segment with a start_line and no start_side. *)
Lemma only_commit_id_and_side_witness :
  exists c,
    request_of example_pull (JObj fields_b) = inr c /\
    inline_comments
      (snd (post_segment (example_services (JStr segment_b) accept_all)
                         example_pull segment_b []))
    = inline_comments [] ++ [c] /\
    rc_body c = obj_get fields_b (str "body") /\
    rc_path c = obj_get fields_b (str "path") /\
    rc_line c = obj_get fields_b (str "line") /\
    rc_start_line c = obj_get fields_b (str "start_line") /\
    rc_start_side c = obj_get fields_b (str "start_side") /\
    rc_commit_id c
    = js_or (obj_get fields_b (str "commit_id"))
            (JStr (head_sha example_pull)) /\
    rc_side c = js_or (obj_get fields_b (str "side")) (JStr (str "RIGHT")) /\
    (obj_get fields_b (str "start_side") = JUndef ->
     rc_start_side c = JUndef).
Proof.
  apply (only_commit_id_and_side_defaulted
           (example_services (JStr segment_b) accept_all)
           example_pull segment_b fields_b []).
  - reflexivity.
  - reflexivity.
Defined.

(** * Further properties *)

(** ** The regular expression *)

Lemma scan_skip (pre s : jsstring) :
  ~ In 123 pre -> scan None (pre ++ s) = scan None s.
Proof.
  induction pre as [|c pre IH]; intros Hno; [reflexivity|].
  simpl. destruct (c =? 123) eqn:E.
  - apply N.eqb_eq in E. subst c. exfalso. apply Hno. left. reflexivity.
  - apply IH. intros H. apply Hno. right. exact H.
Qed.

Lemma scan_inside (acc body rest : jsstring) :
  ~ In 125 body ->
  scan (Some acc) (body ++ 125 :: rest)
  = (rev acc ++ body ++ [125]) :: scan None rest.
Proof.
  revert acc. induction body as [|c body IH]; intros acc Hno.
  - simpl. reflexivity.
  - simpl. destruct (c =? 125) eqn:E.
    + apply N.eqb_eq in E. subst c. exfalso. apply Hno. left. reflexivity.
    + rewrite IH by (intros H; apply Hno; right; exact H).
      simpl. rewrite <- app_assoc. reflexivity.
Qed.

Lemma scan_members (open : option jsstring) (s m : jsstring) :
  In m (scan open s) ->
  (exists a body c,
      s = a ++ 123 :: body ++ 125 :: c /\
      m = 123 :: body ++ [125] /\ ~ In 125 body) \/
  (exists acc body c,
      open = Some acc /\ s = body ++ 125 :: c /\
      m = rev acc ++ body ++ [125] /\ ~ In 125 body).
Proof.
  revert open. induction s as [|x s IH]; intros open Hin; [destruct Hin|].
  simpl in Hin. destruct open as [acc|].
  - destruct (x =? 125) eqn:E.
    + apply N.eqb_eq in E. subst x. destruct Hin as [<-|Hin].
      * right. exists acc, [], s. simpl. repeat split; auto.
      * destruct (IH None Hin) as [(a & body & c & -> & -> & Hno)|
                                   (acc' & _ & _ & Habs & _)];
          [|discriminate].
        left. exists (125 :: a), body, c. repeat split; auto.
    + destruct (IH _ Hin) as [(a & body & c & -> & -> & Hno)|
                              (acc' & body & c & Hacc & -> & -> & Hno)].
      * left. exists (x :: a), body, c. repeat split; auto.
      * injection Hacc as <-. right. exists acc, (x :: body), c.
        simpl. rewrite <- app_assoc. repeat split; auto.
        intros [H|H]; [|auto]. subst x. discriminate.
  - destruct (x =? 123) eqn:E.
    + apply N.eqb_eq in E. subst x.
      destruct (IH _ Hin) as [(a & body & c & -> & -> & Hno)|
                              (acc' & body & c & Hacc & -> & -> & Hno)].
      * left. exists (123 :: a), body, c. repeat split; auto.
      * injection Hacc as <-. left. exists [], body, c. repeat split; auto.
    + destruct (IH None Hin) as [(a & body & c & -> & -> & Hno)|
                                 (acc' & _ & _ & Habs & _)];
        [|discriminate].
      left. exists (x :: a), body, c. repeat split; auto.
Qed.

Lemma scan_closes (acc s : jsstring) : In 125 s -> scan (Some acc) s <> [].
Proof.
  revert acc. induction s as [|x s IH]; intros acc Hin; [destruct Hin|].
  simpl. destruct (x =? 125) eqn:E; [discriminate|].
  apply IH. destruct Hin as [->|Hin]; [discriminate|exact Hin].
Qed.

Lemma scan_opens (a t : jsstring) :
  In 125 t -> scan None (a ++ 123 :: t) <> [].
Proof.
  intros Hin. induction a as [|x a IH]; simpl.
  - apply scan_closes. exact Hin.
  - destruct (x =? 123); [|exact IH].
    apply scan_closes. apply in_or_app. right. right. exact Hin.
Qed.

Lemma scan_length (open : option jsstring) (s : jsstring) :
  (List.length (scan open s) <= closing_braces s)%nat.
Proof.
  revert open. unfold closing_braces.
  induction s as [|x s IH]; intros open; [apply le_n|].
  simpl scan. simpl count_occ.
  destruct (N.eq_dec x 125) as [->|Hne].
  - destruct open as [acc|]; simpl.
    + apply le_n_S. apply IH.
    + apply le_S. apply IH.
  - destruct open as [acc|].
    + destruct (x =? 125) eqn:E; [apply N.eqb_eq in E; contradiction|].
      apply IH.
    + destruct (x =? 123); apply IH.
Qed.

(** X1. Every match is a piece of the text that begins with an opening
    brace and ends with the first closing brace after it: the closing
    brace is its last code unit and its only one, so an object with a
    nested object, or with a closing brace in a string, is never matched
    whole. *)
Theorem match_is_cut_at_first_closing_brace s ms m :
  string_match s = Some ms -> In m ms ->
  exists before body after,
    s = before ++ m ++ after /\
    m = 123 :: body ++ [125] /\
    ~ In 125 body.
Proof.
  unfold string_match. intros Hm Hin.
  assert (Hin' : In m (scan None s)).
  { destruct (scan None s); [discriminate|]. injection Hm as <-. exact Hin. }
  destruct (scan_members None s m Hin')
    as [(a & body & c & -> & -> & Hno)|(acc & _ & _ & Habs & _)];
    [|discriminate].
  exists a, body, c. repeat split; auto.
  simpl. rewrite <- app_assoc. reflexivity.
Qed.

Lemma match_is_cut_witness :
  exists before body after,
    str "see {a {b} c} and {d" = before ++ str "{a {b}" ++ after /\
    str "{a {b}" = 123 :: body ++ [125] /\
    ~ In 125 body.
Proof.
  apply (match_is_cut_at_first_closing_brace
           (str "see {a {b} c} and {d") [str "{a {b}"] (str "{a {b}")).
  - reflexivity.
  - left. reflexivity.
Defined.

Lemma string_match_none_iff s :
  string_match s = None <->
  ~ exists a b c, s = a ++ 123 :: b ++ 125 :: c.
Proof.
  unfold string_match. split.
  - intros Hnone (a & b & c & ->).
    destruct (scan None (a ++ 123 :: b ++ 125 :: c)) eqn:E; [|discriminate].
    revert E. apply scan_opens. apply in_or_app. right. left. reflexivity.
  - intros Hno. destruct (scan None s) as [|m ms] eqn:E; [reflexivity|].
    exfalso. apply Hno.
    destruct (scan_members None s m) as [(a & body & c & -> & _)|
                                         (acc & _ & _ & Habs & _)];
      [rewrite E; left; reflexivity| |discriminate].
    exists a, body, c. reflexivity.
Qed.

(** X2. The expression matches nothing exactly when the text has no
    opening brace with a closing brace somewhere after it. *)
Theorem no_match_iff_no_brace_pair s :
  string_match s = None <->
  ~ exists a b c, s = a ++ 123 :: b ++ 125 :: c.
Proof. exact (string_match_none_iff s). Qed.

(** X3. A text that begins, after a stretch without opening brace, with a
    braced piece that has no closing brace inside has that piece as its
    first match, and the matches of the rest after it: segments written
    one after the other are all found, in order. *)
Theorem first_match_then_the_rest pre body rest :
  ~ In 123 pre -> ~ In 125 body ->
  scan None (pre ++ (123 :: body ++ [125]) ++ rest)
  = (123 :: body ++ [125]) :: scan None rest.
Proof.
  intros Hpre Hbody. rewrite (scan_skip _ _ Hpre).
  replace ((123 :: body ++ [125]) ++ rest) with (123 :: body ++ 125 :: rest)
    by (simpl; rewrite <- app_assoc; reflexivity).
  change (scan (Some [123]) (body ++ 125 :: rest)
          = (123 :: body ++ [125]) :: scan None rest).
  exact (scan_inside [123] body rest Hbody).
Qed.

Lemma first_match_witness :
  scan None (str "first " ++ (123 :: str "a:1" ++ [125]) ++ str " then {b}")
  = (123 :: str "a:1" ++ [125]) :: scan None (str " then {b}").
Proof.
  apply (first_match_then_the_rest (str "first ") (str "a:1")
           (str " then {b}")).
  - vm_compute. intuition discriminate.
  - vm_compute. intuition discriminate.
Defined.

(** ** The shape of every run *)

Ltac shape_done :=
  simpl; repeat split; auto with arith; repeat constructor.

Lemma post_block services (body : jsval) (i : info_line) (tr : list event) :
  (createComment services body ;; emit (Info i)) tr
  = match issues_createComment services tr body with
    | None => (inr tt, tr ++ [Call (IssuesCreateComment body) None; Info i])
    | Some err => (inl err, tr ++ [Call (IssuesCreateComment body) (Some err)])
    end.
Proof.
  unfold bind, createComment, call, emit.
  destruct (issues_createComment services tr body); simpl;
    [reflexivity|]. rewrite <- app_assoc. reflexivity.
Qed.

(** A discussion comment, and a second attempt when the first fails. *)
Lemma post_twice services (body : jsval) (i j : info_line) (tr : list event) :
  exists r evs,
    try_catch (createComment services body ;; emit (Info i))
              (fun _ => createComment services body ;; emit (Info j)) tr
    = (r, tr ++ evs) /\
    completions evs = [] /\ reported evs = [] /\ inline_comments evs = [] /\
    (List.length (discussion_comments evs) <= 2)%nat /\
    Forall (eq body) (discussion_comments evs).
Proof.
  unfold try_catch. rewrite post_block.
  destruct (issues_createComment services tr body) as [e1|].
  - rewrite post_block.
    destruct (issues_createComment services _ body) as [e2|];
      eexists _, _; (split; [rewrite <- app_assoc; reflexivity|]);
      shape_done.
  - eexists _, _. split; [reflexivity|].
    shape_done.
Qed.

Lemma interpret_shape services pr feedback tr :
  exists r evs,
    interpret services pr feedback tr = (r, tr ++ evs) /\
    completions evs = [] /\ reported evs = [] /\
    (inline_comments evs = [] \/
     discussion_comments evs = [] /\
     exists ms, inline_comments evs = flat_map (drafts_of_segment pr) ms) /\
    (List.length (discussion_comments evs) <= 2)%nat.
Proof.
  assert (Hnil : forall r : error + unit, exists r' evs,
               (r, tr) = (r', tr ++ evs) /\
               completions evs = [] /\ reported evs = [] /\
               (inline_comments evs = [] \/
                discussion_comments evs = [] /\
                exists ms,
                  inline_comments evs = flat_map (drafts_of_segment pr) ms) /\
               (List.length (discussion_comments evs) <= 2)%nat).
  { intros r. exists r, []. rewrite app_nil_r. shape_done. }
  assert (Htwice : forall i j, exists r evs,
             try_catch (createComment services feedback ;; emit (Info i))
               (fun _ => createComment services feedback ;; emit (Info j)) tr
             = (r, tr ++ evs) /\
             completions evs = [] /\ reported evs = [] /\
             (inline_comments evs = [] \/
              discussion_comments evs = [] /\
              exists ms,
                inline_comments evs = flat_map (drafts_of_segment pr) ms) /\
             (List.length (discussion_comments evs) <= 2)%nat).
  { intros i j.
    destruct (post_twice services feedback i j tr)
      as (r & evs & E & H1 & H2 & H3 & H4 & _).
    exists r, evs. shape_done. }
  assert (Honce : forall j, exists r evs,
             (createComment services feedback ;; emit (Info j)) tr
             = (r, tr ++ evs) /\
             completions evs = [] /\ reported evs = [] /\
             (inline_comments evs = [] \/
              discussion_comments evs = [] /\
              exists ms,
                inline_comments evs = flat_map (drafts_of_segment pr) ms) /\
             (List.length (discussion_comments evs) <= 2)%nat).
  { intros j. rewrite post_block.
    destruct (issues_createComment services tr feedback);
      eexists _, _; (split; [reflexivity|]); shape_done. }
  unfold interpret, bind at 1, lift.
  destruct (get_prop feedback (str "is_ok")) as [err|is_ok] eqn:Hok;
    [apply Hnil|].
  destruct (truthy is_ok) eqn:Ht.
  - unfold bind at 1.
    destruct (get_prop feedback (str "body")) as [err|body]; [apply Hnil|].
    rewrite post_block.
    destruct (issues_createComment services tr body);
      eexists _, _; (split; [reflexivity|]); shape_done.
  - destruct feedback as [| |b|m e|s|items|fs];
      try discriminate;
      try (unfold try_catch at 1, bind at 1, match_braces, throw;
           apply Honce).
    unfold match_braces.
    destruct (string_match s) as [ms|] eqn:Hm.
    + unfold try_catch, bind at 1, ret.
      rewrite (string_match_nonempty _ _ Hm).
      destruct (for_each_outcome services pr ms tr) as (evs & -> & Hloop).
      destruct (loop_discussion _ _ _ Hloop) as (D1 & D2 & D3).
      exists (inr tt), evs. split; [reflexivity|].
      rewrite D1. repeat split; auto with arith.
      right. split; [reflexivity|].
      exists ms. exact (loop_inline _ _ _ Hloop).
    + change (exists r evs,
                 try_catch
                   (createComment services (JStr s) ;;
                    emit (Info PostedRegularNoJson))
                   (fun _ => createComment services (JStr s) ;;
                             emit (Info PostedRegularFallback)) tr
                 = (r, tr ++ evs) /\
                 completions evs = [] /\ reported evs = [] /\
                 (inline_comments evs = [] \/
                  discussion_comments evs = [] /\
                  exists ms,
                    inline_comments evs
                    = flat_map (drafts_of_segment pr) ms) /\
                 (List.length (discussion_comments evs) <= 2)%nat).
      apply Htwice.
Qed.

Ltac failed_run err :=
  match goal with
  | |- exists r evs, ?l = _ /\ _ =>
      exists (inl err), (removelast l); split; [reflexivity|shape_done]
  end.

(** Every run is some events that report nothing, followed by the report
    of success or of one failure. *)
Lemma run_shape cfg services :
  exists r evs,
    trace cfg services = evs ++ closing r /\
    reported evs = [] /\
    (List.length (completions evs) <= 1)%nat /\
    (inline_comments evs = [] \/
     discussion_comments evs = [] /\
     exists pr ms,
       pulls_get services = inr pr /\
       inline_comments evs = flat_map (drafts_of_segment pr) ms) /\
    (List.length (discussion_comments evs) <= 2)%nat.
Proof.
  unfold trace, run, try_catch, bind at 1, emit at 1. simpl app.
  unfold bind at 1, lift at 1.
  destruct (getOctokit services) as [e0|]; simpl; [failed_run e0|].
  unfold bind at 1, call at 1.
  destruct (pulls_get services) as [e1|pr] eqn:Hpr; simpl; [failed_run e1|].
  unfold bind at 1, call at 1.
  destruct (pulls_listFiles services) as [e2|files]; simpl; [failed_run e2|].
  unfold bind at 1, call at 1.
  destruct (pulls_listReviewComments services) as [e3|existing]; simpl;
    [failed_run e3|].
  unfold bind at 1, call at 1.
  destruct (issues_listComments services) as [e4|discussion]; simpl;
    [failed_run e4|].
  unfold bind at 1, emit at 1. simpl app.
  unfold bind at 1, call at 1.
  destruct (chat_completions_create services _) as [e5|feedback]; simpl;
    [failed_run e5|].
  unfold bind at 1, interpolate at 1.
  destruct (stringable feedback); simpl;
    [|failed_run (TypeError CannotConvert)].
  unfold bind at 1, emit at 1. simpl app.
  unfold bind at 1.
  match goal with
  | |- context [interpret services pr feedback ?pre] =>
      destruct (interpret_shape services pr feedback pre)
        as (r & evs & -> & H1 & H2 & H3 & H4);
      exists r, (pre ++ evs)
  end.
  unfold inline_comments, discussion_comments, completions, reported in *.
  rewrite !flat_map_app, H1, H2.
  split; [destruct r as [err|[]]; simpl; rewrite <- ?app_assoc; reflexivity|].
  simpl. repeat split; auto.
  destruct H3 as [H3|(H3 & ms & H5)]; [left; exact H3|].
  right. split; [exact H3|]. exists pr, ms. split; [reflexivity|exact H5].
Qed.

(** X4. Every run reports exactly once: either it sets the output success
    to true, or it fails with one error -- never both, never neither. *)
Theorem every_run_reports_once cfg services :
  reported (trace cfg services) = success \/
  exists err, reported (trace cfg services) = [inl err].
Proof.
  destruct (run_shape cfg services) as (r & evs & -> & Hr & _).
  unfold reported in *. rewrite flat_map_app, Hr.
  destruct r as [err|[]]; [right; exists err|left]; reflexivity.
Qed.

(** X5. No run posts both kinds of comment: when an inline comment is
    submitted no discussion comment is, and the other way round; and a run
    submits at most two discussion comments. *)
Theorem never_both_kinds_of_comment cfg services :
  (inline_comments (trace cfg services) = [] \/
   discussion_comments (trace cfg services) = []) /\
  (List.length (discussion_comments (trace cfg services)) <= 2)%nat.
Proof.
  destruct (run_shape cfg services) as (r & evs & -> & _ & _ & Hk & Hn).
  unfold inline_comments, discussion_comments in *. rewrite !flat_map_app.
  destruct r as [err|[]]; simpl; rewrite !app_nil_r;
    (split; [destruct Hk as [Hk|[Hk _]]; auto|exact Hn]).
Qed.

(** X6. The completion model is called at most once in a run. *)
Theorem at_most_one_completion cfg services :
  (List.length (completions (trace cfg services)) <= 1)%nat.
Proof.
  destruct (run_shape cfg services) as (r & evs & -> & _ & Hc & _).
  unfold completions in *. rewrite flat_map_app.
  destruct r as [err|[]]; simpl; rewrite app_nil_r; exact Hc.
Qed.

(** ** The stages before the interpretation *)

(** X7. Once the four context requests have succeeded -- on any change
    set, the empty one included -- the model is called exactly once, with
    the prompt built from exactly what was fetched, whatever happens
    afterwards. *)
Theorem model_called_once_with_fetched_context
    cfg services pr files existing discussion :
  context_fetched services pr files existing discussion ->
  completions (trace cfg services)
  = [build_prompt cfg pr files existing discussion].
Proof.
  intros (H0 & H1 & H2 & H3 & H4).
  unfold trace, run, try_catch, bind at 1, emit at 1. simpl app.
  unfold bind at 1, lift at 1. rewrite H0. simpl.
  unfold bind at 1, call at 1. rewrite H1. simpl.
  unfold bind at 1, call at 1. rewrite H2. simpl.
  unfold bind at 1, call at 1. rewrite H3. simpl.
  unfold bind at 1, call at 1. rewrite H4. simpl.
  unfold bind at 1, emit at 1. simpl app.
  unfold bind at 1, call at 1.
  destruct (chat_completions_create services _) as [e5|feedback]; simpl;
    [reflexivity|].
  unfold bind at 1, interpolate at 1.
  destruct (stringable feedback); simpl; [|reflexivity].
  unfold bind at 1, emit at 1. simpl app.
  unfold bind at 1.
  match goal with
  | |- context [interpret services pr feedback ?pre] =>
      destruct (interpret_shape services pr feedback pre)
        as (r & evs & -> & H5 & _)
  end.
  unfold completions in *.
  destruct r as [err|[]]; simpl; rewrite ?flat_map_app, H5; reflexivity.
Qed.

Lemma model_called_once_witness :
  completions
    (trace example_inputs (failing_completion_services rate_limited))
  = [build_prompt example_inputs example_pull [] [] []].
Proof.
  apply (model_called_once_with_fetched_context example_inputs
           (failing_completion_services rate_limited) example_pull [] [] []).
  repeat split; reflexivity.
Defined.

(** X8. When the completion call fails after the context was fetched, no
    comment of any kind is posted and the run fails with the error of the
    call. *)
Theorem completion_failure_is_fatal
    cfg services pr files existing discussion err :
  context_fetched services pr files existing discussion ->
  chat_completions_create services
    (build_prompt cfg pr files existing discussion) = inl err ->
  inline_comments (trace cfg services) = [] /\
  discussion_comments (trace cfg services) = [] /\
  reported (trace cfg services) = [inl err].
Proof.
  intros (H0 & H1 & H2 & H3 & H4) H5.
  unfold trace, run, try_catch, bind, call, emit, lift.
  rewrite H0, H1, H2, H3, H4, H5. simpl. repeat split; reflexivity.
Qed.

Lemma completion_failure_witness :
  inline_comments
    (trace example_inputs (failing_completion_services rate_limited)) = [] /\
  discussion_comments
    (trace example_inputs (failing_completion_services rate_limited)) = [] /\
  reported
    (trace example_inputs (failing_completion_services rate_limited))
  = [inl rate_limited].
Proof.
  apply (completion_failure_is_fatal example_inputs
           (failing_completion_services rate_limited) example_pull [] [] []
           rate_limited).
  - repeat split; reflexivity.
  - reflexivity.
Defined.

(** X9. When no client can be made of the token, the run makes no request
    at all: it logs its first line and fails with that error. *)
Theorem no_client_no_request cfg services err :
  getOctokit services = Some err ->
  trace cfg services = [Info (Starting (github_pr_id cfg)); SetFailed err].
Proof.
  intros H. unfold trace, run, try_catch, bind, emit, lift.
  rewrite H. reflexivity.
Qed.

Lemma no_client_witness :
  trace example_inputs (no_client_services rate_limited)
  = [Info (Starting (github_pr_id example_inputs)); SetFailed rate_limited].
Proof.
  apply (no_client_no_request example_inputs
           (no_client_services rate_limited) rate_limited).
  reflexivity.
Defined.

(** ** Answers that are not text with matches *)

(** X10. When the answer has no content (null or undefined), reading its
    [is_ok] throws: nothing is posted and the run fails with that type
    error. *)
Theorem empty_answer_is_fatal cfg services pr feedback :
  model_answers cfg services pr feedback ->
  feedback = JNull \/ feedback = JUndef ->
  inline_comments (trace cfg services) = [] /\
  discussion_comments (trace cfg services) = [] /\
  reported (trace cfg services) = [inl (TypeError CannotReadProperty)].
Proof.
  intros Ha Hf.
  assert (Hs : stringable feedback = true) by (destruct Hf; subst; reflexivity).
  destruct (trace_answered _ _ _ _ Ha Hs)
    as (files & existing & discussion & ->).
  destruct Hf; subst; repeat split; reflexivity.
Qed.

Lemma empty_answer_witness :
  inline_comments
    (trace example_inputs (example_services JNull accept_all)) = [] /\
  discussion_comments
    (trace example_inputs (example_services JNull accept_all)) = [] /\
  reported (trace example_inputs (example_services JNull accept_all))
  = [inl (TypeError CannotReadProperty)].
Proof.
  apply (empty_answer_is_fatal example_inputs
           (example_services JNull accept_all) example_pull JNull).
  - apply example_answers.
  - left. reflexivity.
Defined.

Lemma interpret_not_text services pr feedback is_ok tr :
  (forall s, feedback <> JStr s) ->
  get_prop feedback (str "is_ok") = inr is_ok ->
  truthy is_ok = false ->
  interpret services pr feedback tr
  = (createComment services feedback ;; emit (Info PostedRegularFallback)) tr.
Proof.
  intros Hns Hok Ht. unfold interpret, bind at 1, lift. rewrite Hok, Ht.
  destruct feedback as [| |b|m e|s|items|fs]; try discriminate;
    try (exfalso; apply (Hns s); reflexivity); reflexivity.
Qed.

(** X11. An answer that is not text and whose [is_ok] is not truthy -- an
    object with segment fields, an array, a number -- has no [match]
    method: no inline comment is submitted, and the answer itself is
    posted as the one discussion comment, by the inner catch. *)
Theorem structured_negative_answer_is_posted_whole
    cfg services pr feedback is_ok :
  model_answers cfg services pr feedback ->
  stringable feedback = true ->
  (forall s, feedback <> JStr s) ->
  get_prop feedback (str "is_ok") = inr is_ok ->
  truthy is_ok = false ->
  (forall tr body, issues_createComment services tr body = None) ->
  inline_comments (trace cfg services) = [] /\
  discussion_comments (trace cfg services) = [feedback] /\
  In (Info PostedRegularFallback) (trace cfg services) /\
  reported (trace cfg services) = success.
Proof.
  intros Ha Hs Hns Hok Ht Hacc.
  destruct (trace_answered _ _ _ _ Ha Hs)
    as (files & existing & discussion & ->).
  rewrite (interpret_not_text _ _ _ _ _ Hns Hok Ht), post_block, Hacc.
  simpl. repeat split; auto.
  do 9 right. left. reflexivity.
Qed.

(** X11 at an answer that is a segment object rather than text. *)
Lemma structured_negative_answer_witness :
  inline_comments
    (trace example_inputs (example_services (JObj fields_a) accept_all))
  = [] /\
  discussion_comments
    (trace example_inputs (example_services (JObj fields_a) accept_all))
  = [JObj fields_a] /\
  In (Info PostedRegularFallback)
     (trace example_inputs (example_services (JObj fields_a) accept_all)) /\
  reported
    (trace example_inputs (example_services (JObj fields_a) accept_all))
  = success.
Proof.
  apply (structured_negative_answer_is_posted_whole example_inputs
           (example_services (JObj fields_a) accept_all) example_pull
           (JObj fields_a) JUndef).
  - apply example_answers.
  - reflexivity.
  - intros s H. discriminate H.
  - reflexivity.
  - reflexivity.
  - intros tr body. reflexivity.
Defined.

(** ** Refused discussion comments *)

Lemma interpret_text_no_match services pr s tr :
  string_match s = None ->
  interpret services pr (JStr s) tr
  = try_catch
      (createComment services (JStr s) ;; emit (Info PostedRegularNoJson))
      (fun _ => createComment services (JStr s) ;;
                emit (Info PostedRegularFallback)) tr.
Proof.
  intros Hm. unfold interpret, bind at 1, lift. simpl.
  unfold try_catch, bind at 1, match_braces, ret. rewrite Hm. reflexivity.
Qed.

(** X12. When the text has no match and the service refuses the fallback
    comment, the same text is submitted a second time, from the catch; if
    the service accepts it then, the run reports success after two
    submissions. *)
Theorem refused_fallback_is_retried cfg services pr s err :
  model_answers cfg services pr (JStr s) ->
  string_match s = None ->
  (forall tr, discussion_comments tr = [] ->
              issues_createComment services tr (JStr s) = Some err) ->
  (forall tr, discussion_comments tr <> [] ->
              issues_createComment services tr (JStr s) = None) ->
  discussion_comments (trace cfg services) = [JStr s; JStr s] /\
  inline_comments (trace cfg services) = [] /\
  In (Info PostedRegularFallback) (trace cfg services) /\
  reported (trace cfg services) = success.
Proof.
  intros Ha Hm Hfirst Hlater.
  destruct (trace_answered _ _ _ _ Ha eq_refl)
    as (files & existing & discussion & ->).
  rewrite (interpret_text_no_match _ _ _ _ Hm).
  unfold try_catch. rewrite post_block, Hfirst by reflexivity.
  rewrite post_block, Hlater by (simpl; discriminate).
  simpl. repeat split; auto.
  do 10 right. left. reflexivity.
Qed.

Lemma refused_fallback_witness :
  discussion_comments
    (trace example_inputs (flaky_services (JStr approval_phrase) rate_limited))
  = [JStr approval_phrase; JStr approval_phrase] /\
  inline_comments
    (trace example_inputs (flaky_services (JStr approval_phrase) rate_limited))
  = [] /\
  In (Info PostedRegularFallback)
     (trace example_inputs
        (flaky_services (JStr approval_phrase) rate_limited)) /\
  reported
    (trace example_inputs (flaky_services (JStr approval_phrase) rate_limited))
  = success.
Proof.
  apply (refused_fallback_is_retried example_inputs
           (flaky_services (JStr approval_phrase) rate_limited)
           example_pull approval_phrase rate_limited).
  - repeat split. exists [], [], []. repeat split; reflexivity.
  - reflexivity.
  - intros tr H. simpl. rewrite H. reflexivity.
  - intros tr H. simpl. destruct (discussion_comments tr);
      [contradiction|reflexivity].
Defined.

(** X13. When the service refuses the fallback comment both times, the
    text was submitted twice, nothing is posted, and the run fails with
    the error of the refusal. *)
Theorem fallback_refused_twice_is_fatal cfg services pr s err :
  model_answers cfg services pr (JStr s) ->
  string_match s = None ->
  (forall tr, issues_createComment services tr (JStr s) = Some err) ->
  discussion_comments (trace cfg services) = [JStr s; JStr s] /\
  inline_comments (trace cfg services) = [] /\
  reported (trace cfg services) = [inl err].
Proof.
  intros Ha Hm Hrefuse.
  destruct (trace_answered _ _ _ _ Ha eq_refl)
    as (files & existing & discussion & ->).
  rewrite (interpret_text_no_match _ _ _ _ Hm).
  unfold try_catch. rewrite post_block, Hrefuse, post_block, Hrefuse.
  simpl. repeat split; reflexivity.
Qed.

Lemma fallback_refused_twice_witness :
  discussion_comments
    (trace example_inputs
       (refusing_services (JStr approval_phrase) rate_limited))
  = [JStr approval_phrase; JStr approval_phrase] /\
  inline_comments
    (trace example_inputs
       (refusing_services (JStr approval_phrase) rate_limited))
  = [] /\
  reported
    (trace example_inputs
       (refusing_services (JStr approval_phrase) rate_limited))
  = [inl rate_limited].
Proof.
  apply (fallback_refused_twice_is_fatal example_inputs
           (refusing_services (JStr approval_phrase) rate_limited)
           example_pull approval_phrase rate_limited).
  - repeat split. exists [], [], []. repeat split; reflexivity.
  - reflexivity.
  - intros tr. reflexivity.
Defined.

(** X14. A positive verdict whose comment the service refuses is not
    submitted again: the run fails with the error of the refusal after
    that one submission. *)
Theorem refused_verdict_is_fatal cfg services pr feedback is_ok body err :
  model_answers cfg services pr feedback ->
  stringable feedback = true ->
  get_prop feedback (str "is_ok") = inr is_ok ->
  truthy is_ok = true ->
  get_prop feedback (str "body") = inr body ->
  (forall tr, issues_createComment services tr body = Some err) ->
  discussion_comments (trace cfg services) = [body] /\
  inline_comments (trace cfg services) = [] /\
  reported (trace cfg services) = [inl err].
Proof.
  intros Ha Hs Hok Ht Hb Hrefuse.
  destruct (trace_answered _ _ _ _ Ha Hs)
    as (files & existing & discussion & ->).
  assert (E : forall tr,
             interpret services pr feedback tr
             = (inl err, tr ++ [Call (IssuesCreateComment body) (Some err)])).
  { intros tr. unfold interpret, bind at 1, lift. rewrite Hok, Ht.
    unfold bind at 1. rewrite Hb.
    rewrite post_block, Hrefuse. reflexivity. }
  rewrite E. simpl. repeat split; reflexivity.
Qed.

Lemma refused_verdict_witness :
  discussion_comments
    (trace example_inputs (refusing_services positive_verdict rate_limited))
  = [JStr (str "LGTM")] /\
  inline_comments
    (trace example_inputs (refusing_services positive_verdict rate_limited))
  = [] /\
  reported
    (trace example_inputs (refusing_services positive_verdict rate_limited))
  = [inl rate_limited].
Proof.
  apply (refused_verdict_is_fatal example_inputs
           (refusing_services positive_verdict rate_limited)
           example_pull positive_verdict (JBool true) (JStr (str "LGTM"))
           rate_limited).
  - repeat split. exists [], [], []. repeat split; reflexivity.
  - reflexivity.
  - reflexivity.
  - reflexivity.
  - reflexivity.
  - intros tr. reflexivity.
Defined.

(** ** A match that parses is a flat object *)

Lemma rbraces_app (a b : list token) :
  rbraces (a ++ b) = (rbraces a + rbraces b)%nat.
Proof.
  induction a as [|t a IH]; [reflexivity|].
  destruct t; simpl; rewrite IH; reflexivity.
Qed.

Lemma push_some (l : list token) r ts :
  push l r = Some ts -> exists ts', r = Some ts' /\ ts = l ++ ts'.
Proof.
  destruct r as [ts'|]; [|discriminate].
  intros H. injection H as <-. eauto.
Qed.

Lemma closing_braces_cons (c : N) (s : jsstring) :
  closing_braces (c :: s)
  = ((if (c =? 125)%N then 1 else 0) + closing_braces s)%nat.
Proof.
  unfold closing_braces. simpl.
  destruct (N.eq_dec c 125) as [->|Hne]; [reflexivity|].
  apply N.eqb_neq in Hne. rewrite Hne. reflexivity.
Qed.

Lemma punct_rbraces (c : N) (t : token) :
  punct c = Some t -> rbraces [t] = if c =? 125 then 1%nat else 0%nat.
Proof.
  unfold punct.
  destruct (c =? 123) eqn:E1.
  { apply N.eqb_eq in E1. subst c. intros H. injection H as <-. reflexivity. }
  destruct (c =? 125) eqn:E2.
  { intros H. injection H as <-. reflexivity. }
  destruct (c =? 91); [intros H; injection H as <-; reflexivity|].
  destruct (c =? 93); [intros H; injection H as <-; reflexivity|].
  destruct (c =? 58); [intros H; injection H as <-; reflexivity|].
  destruct (c =? 44); [intros H; injection H as <-; reflexivity|].
  discriminate.
Qed.

Lemma after_number_rbraces (c : N) (l : list token) :
  after_number c = Some l ->
  (rbraces l <= if (c =? 125)%N then 1 else 0)%nat.
Proof.
  unfold after_number.
  destruct (is_ws c); [intros H; injection H as <-; apply Nat.le_0_l|].
  destruct (c =? 44); [intros H; injection H as <-; apply Nat.le_0_l|].
  destruct (c =? 125); [intros H; injection H as <-; apply le_n|].
  destruct (c =? 93); [intros H; injection H as <-; apply le_n|].
  discriminate.
Qed.

Lemma num_finish_rbraces (st : nstate) (t : token) :
  num_finish st = Some t -> rbraces [t] = 0%nat.
Proof.
  destruct st as [stage neg m fd en ev]. simpl.
  destruct stage; intros H; try discriminate; injection H as <-; reflexivity.
Qed.

(** The lexer makes a closing-brace token only of a closing brace. *)
Lemma lex_rbraces (s : jsstring) :
  (forall ts, lex s = Some ts -> (rbraces ts <= closing_braces s)%nat) /\
  (forall st acc ts, lex_str st acc s = Some ts ->
                     (rbraces ts <= closing_braces s)%nat) /\
  (forall st ts, lex_num st s = Some ts ->
                 (rbraces ts <= closing_braces s)%nat) /\
  (forall rest t ts, lex_lit rest t s = Some ts -> rbraces [t] = 0%nat ->
                     (rbraces ts <= closing_braces s)%nat).
Proof.
  induction s as [|c s (IH1 & IH2 & IH3 & IH4)].
  { repeat split.
    - intros ts H. injection H as <-. apply le_n.
    - intros st acc ts H. discriminate.
    - intros st ts H. simpl in H.
      destruct (num_finish st) as [t|] eqn:E; [|discriminate].
      injection H as <-. rewrite (num_finish_rbraces _ _ E). apply le_n.
    - intros rest t ts H. discriminate. }
  assert (Hpush : forall l ts,
             push l (lex s) = Some ts ->
             (rbraces l <= if (c =? 125)%N then 1 else 0)%nat ->
             (rbraces ts <= closing_braces (c :: s))%nat).
  { intros l ts H Hl. destruct (push_some _ _ _ H) as (ts' & E & ->).
    rewrite rbraces_app, closing_braces_cons.
    apply Nat.add_le_mono; [exact Hl|apply IH1; exact E]. }
  assert (Hmono : forall n, (n <= closing_braces s)%nat ->
                            (n <= closing_braces (c :: s))%nat).
  { intros n Hn. rewrite closing_braces_cons. lia. }
  repeat split.
  - intros ts H. simpl in H.
    destruct (is_ws c); [apply Hmono, IH1, H|].
    destruct (punct c) as [t|] eqn:Ep.
    { apply (Hpush _ _ H). rewrite (punct_rbraces _ _ Ep). apply le_n. }
    destruct (c =? 34); [apply Hmono, (IH2 _ _ _ H)|].
    destruct (num_start c); [apply Hmono, (IH3 _ _ H)|].
    destruct (c =? 116); [apply Hmono, (IH4 _ _ _ H eq_refl)|].
    destruct (c =? 102); [apply Hmono, (IH4 _ _ _ H eq_refl)|].
    destruct (c =? 110); [apply Hmono, (IH4 _ _ _ H eq_refl)|].
    discriminate.
  - intros st acc ts H. simpl in H. destruct st as [| |todo v].
    + destruct (c =? 34) eqn:E.
      { apply (Hpush _ _ H). simpl. apply Nat.le_0_l. }
      destruct (c =? 92); [apply Hmono, (IH2 _ _ _ H)|].
      destruct (c <? 32); [discriminate|apply Hmono, (IH2 _ _ _ H)].
    + destruct (c =? 117); [apply Hmono, (IH2 _ _ _ H)|].
      destruct (unescape c); [apply Hmono, (IH2 _ _ _ H)|discriminate].
    + destruct (hex_of c); [|discriminate].
      destruct todo as [|[|todo]]; [discriminate| |];
        apply Hmono, (IH2 _ _ _ H).
  - intros st ts H. simpl in H.
    destruct (num_step st c); [apply Hmono, (IH3 _ _ H)|].
    destruct (num_finish st) as [t|] eqn:Ef; [|discriminate].
    destruct (after_number c) as [l|] eqn:Ea; [|discriminate].
    apply (Hpush _ _ H).
    change (rbraces (t :: l)) with (rbraces ([t] ++ l)).
    rewrite rbraces_app, (num_finish_rbraces _ _ Ef).
    exact (after_number_rbraces _ _ Ea).
  - intros rest t ts H Ht. simpl in H.
    destruct rest as [|x [|y rest]]; [discriminate| |].
    + destruct (c =? x); [|discriminate].
      apply (Hpush _ _ H). rewrite Ht. apply Nat.le_0_l.
    + destruct (c =? x); [|discriminate].
      apply Hmono, (IH4 _ _ _ H Ht).
Qed.

Lemma list_sum_rev (l : list nat) : list_sum (rev l) = list_sum l.
Proof.
  induction l as [|x l IH]; [reflexivity|].
  simpl. rewrite list_sum_app, IH. simpl. lia.
Qed.

Lemma objects_JArr_rev (l : list jsval) :
  objects (JArr (rev l)) = list_sum (map objects l).
Proof. simpl. rewrite map_rev. apply list_sum_rev. Qed.

Lemma objects_obj_set fields k v :
  (list_sum (map (fun kv => objects (snd kv)) (obj_set fields k v))
   <= list_sum (map (fun kv => objects (snd kv)) fields) + objects v)%nat.
Proof.
  induction fields as [|[k' v'] fields IH]; simpl; [lia|].
  destruct (jsstring_eqb k' k); simpl; lia.
Qed.

Lemma objects_obj_get fields k :
  (objects (obj_get fields k)
   <= list_sum (map (fun kv => objects (snd kv)) fields))%nat.
Proof.
  induction fields as [|[k' v'] fields IH]; simpl; [lia|].
  destruct (jsstring_eqb k' k); lia.
Qed.

(** The parser makes an object only of a closing-brace token. *)
Lemma parse_objects (n : nat) :
  forall ts, (List.length ts < n)%nat ->
    (forall stk v,
        parse_val stk ts = Some v ->
        (objects v <= stack_objects stk + rbraces ts)%nat) /\
    (forall v0 stk v,
        deliver v0 stk ts = Some v ->
        (objects v <= objects v0 + stack_objects stk + rbraces ts)%nat).
Proof.
  induction n as [|n IH]; intros ts Hlen; [lia|].
  assert (Hdeliver : forall v0 stk v,
             deliver v0 stk ts = Some v ->
             (objects v <= objects v0 + stack_objects stk + rbraces ts)%nat).
  { intros v0 stk v H.
    destruct stk as [|[items|fields k] stk'].
    - destruct ts; simpl in H; [|discriminate]. injection H as <-. lia.
    - destruct ts as [|t ts']; [discriminate|]. simpl in Hlen.
      destruct t; simpl in H; try discriminate.
      + destruct (IH ts' ltac:(lia)) as [_ Hd]. apply Hd in H.
        change (rev items ++ [v0]) with (rev (v0 :: items)) in H.
        rewrite objects_JArr_rev in H.
        unfold stack_objects in *. simpl in *. lia.
      + destruct (IH ts' ltac:(lia)) as [Hp _]. apply Hp in H.
        unfold stack_objects in *. simpl in *. lia.
    - destruct ts as [|t ts']; [discriminate|]. simpl in Hlen.
      pose proof (objects_obj_set fields k v0) as Hset.
      destruct t; simpl in H; try discriminate.
      + destruct (IH ts' ltac:(lia)) as [_ Hd]. apply Hd in H.
        unfold stack_objects in *. simpl in *. lia.
      + destruct ts' as [|[] [|[] ts'']]; try discriminate.
        simpl in Hlen.
        destruct (IH ts'' ltac:(lia)) as [Hp _]. apply Hp in H.
        unfold stack_objects in *. simpl in *. lia. }
  split; [|exact Hdeliver].
  intros stk v H.
  destruct ts as [|t ts']; [discriminate|]. simpl in Hlen.
  destruct (IH ts' ltac:(lia)) as [Hp Hd].
  destruct t; simpl in H; try discriminate;
    try (apply Hd in H; simpl in *; lia).
  - destruct ts' as [|t' ts'']; [discriminate|].
    destruct t'; try discriminate.
    + simpl in Hlen. destruct (IH ts'' ltac:(lia)) as [_ Hd'].
      apply Hd' in H. simpl in *. lia.
    + destruct ts'' as [|[] ts3]; try discriminate.
      simpl in Hlen. destruct (IH ts3 ltac:(lia)) as [Hp' _].
      apply Hp' in H. unfold stack_objects in *. simpl in *. lia.
  - destruct ts' as [|t' ts'']; [discriminate|].
    destruct t';
      try (apply Hp in H; unfold stack_objects in *; simpl in *; lia).
    simpl in Hlen. destruct (IH ts'' ltac:(lia)) as [_ Hd'].
    apply Hd' in H. simpl in *. lia.
Qed.

Lemma JSON_parse_objects (s : jsstring) (v : jsval) :
  JSON_parse s = inr v -> (objects v <= closing_braces s)%nat.
Proof.
  unfold JSON_parse.
  destruct (lex s) as [ts|] eqn:El; [|discriminate].
  destruct (parse_val [] ts) as [v'|] eqn:Ep; [|discriminate].
  intros H. injection H as <-.
  destruct (lex_rbraces s) as (Hl & _).
  destruct (parse_objects (S (List.length ts)) ts ltac:(lia)) as (Hp & _).
  apply Hl in El. apply Hp in Ep. unfold stack_objects in Ep. simpl in Ep.
  lia.
Qed.

Lemma closing_braces_app (a b : jsstring) :
  closing_braces (a ++ b) = (closing_braces a + closing_braces b)%nat.
Proof. unfold closing_braces. apply count_occ_app. Qed.

Lemma closing_braces_none (s : jsstring) :
  ~ In 125 s -> closing_braces s = 0%nat.
Proof. unfold closing_braces. apply count_occ_not_In. Qed.

Lemma match_flat_fields s ms m fields :
  string_match s = Some ms -> In m ms ->
  JSON_parse m = inr (JObj fields) ->
  forall k, objects (obj_get fields k) = 0%nat.
Proof.
  intros Hm Hin HP k.
  assert (Hin' : In m (scan None s)).
  { unfold string_match in Hm.
    destruct (scan None s); [discriminate|]. injection Hm as <-. exact Hin. }
  destruct (scan_members None s m Hin')
    as [(a & body & c & _ & -> & Hno)|(acc & _ & _ & Habs & _)];
    [|discriminate].
  pose proof (JSON_parse_objects _ _ HP) as Hobj.
  change (123 :: body ++ [125]) with ([123] ++ body ++ [125]) in Hobj.
  rewrite !closing_braces_app, (closing_braces_none _ Hno) in Hobj.
  pose proof (objects_obj_get fields k) as Hget.
  simpl in Hobj. unfold closing_braces in Hobj. simpl in Hobj. lia.
Qed.

(** X15. A match that parses is a flat object: it is an object, and no
    property value of it is or contains an object.  So the properties the
    loop reads never throw, and a segment with a nested object is never
    recovered. *)
Theorem parsed_match_is_flat_object s ms m commentData :
  string_match s = Some ms -> In m ms ->
  JSON_parse m = inr commentData ->
  exists fields,
    commentData = JObj fields /\
    forall k, objects (obj_get fields k) = 0%nat.
Proof.
  intros Hm Hin HP.
  destruct (match_parses_to_object _ _ _ _ Hm Hin HP) as [fields ->].
  exists fields. split; [reflexivity|].
  exact (match_flat_fields _ _ _ _ Hm Hin HP).
Qed.

(** X15 at the second of two segments. *)
Lemma parsed_match_is_flat_witness :
  exists fields,
    JObj fields_b = JObj fields /\
    forall k, objects (obj_get fields k) = 0%nat.
Proof.
  apply (parsed_match_is_flat_object (segment_a ++ sep ++ segment_b)
           [segment_a; segment_b] segment_b (JObj fields_b)).
  - reflexivity.
  - right. left. reflexivity.
  - reflexivity.
Defined.

Lemma flat_is_stringable : forall v, objects v = 0%nat -> stringable v = true.
Proof.
  fix IH 1. intros [| |b|m e|s|items|fs] H; try reflexivity;
    [|discriminate].
  simpl in *. revert items H. fix IHl 1. intros [|x l] H; [reflexivity|].
  simpl in *. rewrite (IH x), (IHl l); [reflexivity|lia|lia].
Qed.

Lemma segment_outcome_of_match pr s ms m evs :
  string_match s = Some ms -> In m ms ->
  segment_outcome pr m evs ->
  (exists err, JSON_parse m = inl err /\ evs = [Warning err]) \/
  evs = [] \/
  (exists c path line,
      evs = [Call (PullsCreateReviewComment c) None;
             Info (PostedInline path line)]) \/
  (exists c err,
      evs = [Call (PullsCreateReviewComment c) (Some err); Warning err]).
Proof.
  intros Hm Hin Hseg.
  destruct Hseg as [err HP|d err HP HV|d HP HV|fs HP Hp S1 S2|fs HP Hp Hs|
                    fs err HP Hp].
  - left. eauto.
  - exfalso.
    destruct (match_parses_to_object _ _ _ _ Hm Hin HP) as [fs ->].
    rewrite has_required_fields_obj in HV. discriminate.
  - right. left. reflexivity.
  - right. right. left. eauto.
  - exfalso.
    pose proof (match_flat_fields _ _ _ _ Hm Hin HP) as Hflat.
    destruct Hs as [Hs|Hs];
      rewrite (flat_is_stringable _ (Hflat _)) in Hs; discriminate.
  - right. right. right. eauto.
Qed.

Lemma loop_warnings_source pr s ms err :
  string_match s = Some ms ->
  forall ms' evs,
    loop_outcome pr ms' evs -> incl ms' ms ->
    In err (warnings evs) ->
    (exists m, In m ms /\ JSON_parse m = inl err) \/
    (exists c, In (Call (PullsCreateReviewComment c) (Some err)) evs).
Proof.
  intros Hm ms' evs Hloop.
  induction Hloop as [|m ms' evs evs' Hseg _ IH]; intros Hincl Hin;
    [destruct Hin|].
  assert (Hmem : In m ms) by (apply Hincl; left; reflexivity).
  unfold warnings in Hin. rewrite flat_map_app in Hin.
  apply in_app_or in Hin. destruct Hin as [Hin|Hin].
  - destruct (segment_outcome_of_match _ _ _ _ _ Hm Hmem Hseg)
      as [(e & HP & ->)|[->|[(c & p & l & ->)|(c & e & ->)]]];
      simpl in Hin.
    + destruct Hin as [<-|[]]. left. eauto.
    + destruct Hin.
    + destruct Hin.
    + destruct Hin as [<-|[]]. right. exists c. left. reflexivity.
  - destruct IH as [Hl|(c & Hc)];
      [intros x Hx; apply Hincl; right; exact Hx|exact Hin|left; exact Hl|].
    right. exists c. apply in_or_app. right. exact Hc.
Qed.

(** X16. In a run over the matches of a textual answer, every warning has
    one of two sources: a match that does not parse, whose syntax error it
    carries, or an inline comment that the service refused, whose error
    it carries.  Reading the segment's properties and writing the log
    line never add one. *)
Theorem warnings_come_from_parse_or_refusal cfg services pr s ms err :
  model_answers cfg services pr (JStr s) ->
  string_match s = Some ms ->
  In err (warnings (trace cfg services)) ->
  (exists m, In m ms /\ JSON_parse m = inl err) \/
  (exists c, In (Call (PullsCreateReviewComment c) (Some err))
                (trace cfg services)).
Proof.
  intros Ha Hm Hin.
  destruct (trace_segments _ _ _ _ _ Ha Hm)
    as (files & existing & discussion & evs & Hloop & E).
  rewrite E in *. unfold warnings in Hin. rewrite !flat_map_app in Hin.
  simpl in Hin. rewrite app_nil_r in Hin.
  destruct (loop_warnings_source pr s ms err Hm ms evs Hloop
              (incl_refl ms) Hin) as [Hl|(c & Hc)]; [left; exact Hl|].
  right. exists c. apply in_or_app. right. apply in_or_app. left. exact Hc.
Qed.

Lemma warnings_come_from_witness :
  (exists m, In m [segment_b; segment_a] /\
             JSON_parse m = inl (RequestError
                                   (str "line must be part of the diff"))) \/
  (exists c,
      In (Call (PullsCreateReviewComment c)
               (Some (RequestError (str "line must be part of the diff"))))
         (trace example_inputs
            (example_services (JStr (segment_b ++ sep ++ segment_a))
                              refuse_line_99))).
Proof.
  apply (warnings_come_from_parse_or_refusal example_inputs
           (example_services (JStr (segment_b ++ sep ++ segment_a))
                             refuse_line_99)
           example_pull (segment_b ++ sep ++ segment_a)
           [segment_b; segment_a]
           (RequestError (str "line must be part of the diff"))).
  - apply example_answers.
  - reflexivity.
  - vm_compute. left. reflexivity.
Defined.

Lemma drafts_of_segment_length pr m :
  (List.length (drafts_of_segment pr m) <= 1)%nat.
Proof.
  unfold drafts_of_segment.
  destruct (JSON_parse m) as [|d]; [apply Nat.le_0_l|].
  destruct (has_required_fields d) as [|[|]]; try apply Nat.le_0_l.
  destruct (request_of pr d); [apply Nat.le_0_l|apply le_n].
Qed.

Lemma flat_map_length_le {A B : Type} (f : A -> list B) (l : list A) :
  (forall x, (List.length (f x) <= 1)%nat) ->
  (List.length (flat_map f l) <= List.length l)%nat.
Proof.
  intros Hf. induction l as [|x l IH]; [apply le_n|].
  simpl. rewrite length_app. specialize (Hf x). lia.
Qed.

Lemma no_match_no_inline cfg services pr s :
  model_answers cfg services pr (JStr s) ->
  string_match s = None ->
  inline_comments (trace cfg services) = [].
Proof.
  intros Ha Hm.
  destruct (trace_answered _ _ _ _ Ha eq_refl)
    as (files & existing & discussion & ->).
  rewrite (interpret_text_no_match _ _ _ _ Hm).
  destruct (post_twice services (JStr s) PostedRegularNoJson
              PostedRegularFallback
              (preamble cfg pr files existing discussion (JStr s)))
    as (r & evs & -> & _ & _ & Hi & _).
  unfold inline_comments in *. simpl fst. simpl snd.
  rewrite flat_map_app. simpl. rewrite Hi. destruct r as [e|[]]; reflexivity.
Qed.

(** X17. A textual answer never leads to more inline comments than it has
    closing braces: each match ends at its own closing brace and is
    submitted at most once. *)
Theorem inline_comments_bounded_by_closing_braces cfg services pr s :
  model_answers cfg services pr (JStr s) ->
  (List.length (inline_comments (trace cfg services)) <= closing_braces s)%nat.
Proof.
  intros Ha. destruct (string_match s) as [ms|] eqn:Hm.
  - destruct (trace_segments_summary _ _ _ _ _ Ha Hm) as (-> & _).
    pose proof (flat_map_length_le (drafts_of_segment pr) ms
                  (drafts_of_segment_length pr)) as H1.
    pose proof (scan_length None s) as H2.
    unfold string_match in Hm.
    destruct (scan None s) as [|m0 ms0]; [discriminate|].
    injection Hm as <-. lia.
  - rewrite (no_match_no_inline _ _ _ _ Ha Hm). apply Nat.le_0_l.
Qed.

Lemma inline_comments_bounded_witness :
  (List.length
     (inline_comments
        (trace example_inputs
           (example_services (JStr four_segments) accept_all)))
   <= closing_braces four_segments)%nat.
Proof.
  apply (inline_comments_bounded_by_closing_braces example_inputs
           (example_services (JStr four_segments) accept_all)
           example_pull four_segments).
  apply example_answers.
Defined.

(** ** When the whole answer is posted *)

(** X18. With a service that accepts discussion comments, a textual
    answer is posted whole, as the one discussion comment, exactly when it
    has no opening brace followed somewhere by a closing brace; with such a
    pair in the text, no discussion comment is posted at all. *)
Theorem text_is_posted_whole_iff_no_brace_pair cfg services pr s :
  model_answers cfg services pr (JStr s) ->
  (forall tr body, issues_createComment services tr body = None) ->
  (discussion_comments (trace cfg services) = [JStr s] <->
   ~ exists a b c, s = a ++ 123 :: b ++ 125 :: c) /\
  ((exists a b c, s = a ++ 123 :: b ++ 125 :: c) ->
   discussion_comments (trace cfg services) = []).
Proof.
  intros Ha Hacc.
  assert (Hpair : (exists a b c, s = a ++ 123 :: b ++ 125 :: c) ->
                  discussion_comments (trace cfg services) = []).
  { intros Hex. destruct (string_match s) as [ms|] eqn:Hm.
    - destruct (trace_segments_summary _ _ _ _ _ Ha Hm) as (_ & Hd & _).
      exact Hd.
    - apply string_match_none_iff in Hm. contradiction. }
  split; [|exact Hpair]. split.
  - intros Hd Hex. rewrite (Hpair Hex) in Hd. discriminate.
  - intros Hno. apply string_match_none_iff in Hno.
    destruct (fallback_when_nothing_matches _ _ _ _ Ha Hno Hacc) as (Hd & _).
    exact Hd.
Qed.

Lemma text_is_posted_whole_witness :
  (discussion_comments
     (trace example_inputs (example_services (JStr prose_text) accept_all))
   = [JStr prose_text] <->
   ~ exists a b c, prose_text = a ++ 123 :: b ++ 125 :: c) /\
  ((exists a b c, prose_text = a ++ 123 :: b ++ 125 :: c) ->
   discussion_comments
     (trace example_inputs (example_services (JStr prose_text) accept_all))
   = []).
Proof.
  apply (text_is_posted_whole_iff_no_brace_pair example_inputs
           (example_services (JStr prose_text) accept_all)
           example_pull prose_text).
  - apply example_answers.
  - intros tr body. reflexivity.
Defined.

(** ** What is submitted inline *)

Lemma truthy_js_or (a b : jsval) :
  truthy b = true -> truthy (js_or a b) = true.
Proof. intros H. unfold js_or. destruct (truthy a) eqn:E; assumption. Qed.

Lemma drafts_of_segment_complete pr m c :
  In c (drafts_of_segment pr m) ->
  truthy (rc_body c) = true /\ truthy (rc_path c) = true /\
  truthy (rc_line c) = true /\ truthy (rc_side c) = true /\
  (head_sha pr <> [] -> truthy (rc_commit_id c) = true).
Proof.
  unfold drafts_of_segment.
  destruct (JSON_parse m) as [|d]; [intros []|].
  destruct (has_required_fields d) as [|[|]] eqn:HV; try (intros []).
  destruct (has_required_fields_true _ HV) as (fs & -> & Hp).
  rewrite request_of_obj. intros [<-|[]].
  unfold postable in Hp.
  apply andb_true_iff in Hp as [Hp Hl]. apply andb_true_iff in Hp as [Hb Hp].
  simpl. repeat split; auto.
  - apply truthy_js_or. reflexivity.
  - intros Hhead. apply truthy_js_or. simpl.
    destruct (head_sha pr); [contradiction|reflexivity].
Qed.

(** X19. Every inline comment a run submits, in any run, has a truthy
    body, path and line and a truthy side; and its commit is truthy too
    when the head commit of the pull request is not the empty string. *)
Theorem submitted_inline_comments_are_complete cfg services c :
  In c (inline_comments (trace cfg services)) ->
  truthy (rc_body c) = true /\ truthy (rc_path c) = true /\
  truthy (rc_line c) = true /\ truthy (rc_side c) = true /\
  (forall pr, pulls_get services = inr pr -> head_sha pr <> [] ->
              truthy (rc_commit_id c) = true).
Proof.
  destruct (run_shape cfg services) as (r & evs & -> & _ & _ & Hk & _).
  unfold inline_comments. rewrite flat_map_app.
  replace (flat_map _ (closing r)) with (@nil review_comment)
    by (destruct r as [e|[]]; reflexivity).
  rewrite app_nil_r. fold (inline_comments evs).
  destruct Hk as [->|(_ & pr & ms & Hpr & ->)]; [intros []|].
  intros Hin. apply in_flat_map in Hin. destruct Hin as (m & _ & Hin).
  destruct (drafts_of_segment_complete _ _ _ Hin) as (B & P & L & S & C).
  repeat split; auto.
  intros pr' Hpr'. rewrite Hpr in Hpr'. injection Hpr' as <-. exact C.
Qed.

Lemma submitted_inline_comments_witness :
  truthy (rc_body (draft example_pull fields_a)) = true /\
  truthy (rc_path (draft example_pull fields_a)) = true /\
  truthy (rc_line (draft example_pull fields_a)) = true /\
  truthy (rc_side (draft example_pull fields_a)) = true /\
  (forall pr,
      pulls_get (example_services (JStr segment_a) accept_all) = inr pr ->
      head_sha pr <> [] ->
      truthy (rc_commit_id (draft example_pull fields_a)) = true).
Proof.
  apply (submitted_inline_comments_are_complete example_inputs
           (example_services (JStr segment_a) accept_all)
           (draft example_pull fields_a)).
  vm_compute. left. reflexivity.
Defined.

(** ** The previous version *)

Ltac previous_failed e l :=
  right; exists e, l; split; [reflexivity|];
  split; [repeat constructor|];
  intros body failure Hin; simpl in Hin;
  repeat (destruct Hin as [Hin|Hin]; [try discriminate|]);
  try contradiction.

Lemma previous_trace_cases cfg services :
  (exists files feedback,
      Previous.all_succeed services files feedback /\
      Previous.trace cfg services
      = [Previous.Info (Previous.OpenAIKey (openai_api_key cfg));
         Previous.Info (Previous.GitHubToken (github_token cfg));
         Previous.Info (Previous.PRNumber (github_pr_id cfg));
         Previous.Call Previous.PullsListFiles None;
         Previous.Call
           (Previous.ChatCompletionsCreate (map filename files)) None;
         Previous.Info (Previous.Feedback feedback);
         Previous.Call (Previous.IssuesCreateComment feedback) None;
         Previous.Info Previous.Completed;
         Previous.SetOutput (str "success") (str "true")]) \/
  (exists err rest,
      Previous.trace cfg services
      = Previous.Info (Previous.OpenAIKey (openai_api_key cfg))
        :: Previous.Info (Previous.GitHubToken (github_token cfg))
        :: Previous.Info (Previous.PRNumber (github_pr_id cfg))
        :: rest ++ [Previous.SetFailed err] /\
      Forall (fun ev => match ev with
                        | Previous.SetOutput _ _ | Previous.SetFailed _ =>
                            False
                        | _ => True
                        end) rest /\
      forall body failure,
        In (Previous.Call (Previous.IssuesCreateComment body) failure) rest ->
        failure = Some err /\
        exists files,
          Previous.pulls_listFiles services = inr files /\
          Previous.chat_completions_create services (map filename files)
          = inr body).
Proof.
  unfold Previous.trace, Previous.run, Previous.try_catch, Previous.bind,
    Previous.emit, Previous.lift, Previous.call, Previous.interpolate.
  simpl.
  destruct (Previous.getOctokit services) as [e0|] eqn:H0; simpl.
  { previous_failed e0 (@nil Previous.event). }
  destruct (Previous.pulls_listFiles services) as [e1|files] eqn:H1; simpl.
  { previous_failed e1 [Previous.Call Previous.PullsListFiles (Some e1)]. }
  destruct (Previous.chat_completions_create services (map filename files))
    as [e2|feedback] eqn:H2; simpl.
  { previous_failed e2
      [Previous.Call Previous.PullsListFiles None;
       Previous.Call
         (Previous.ChatCompletionsCreate (map filename files)) (Some e2)]. }
  destruct (stringable feedback) eqn:H3; simpl.
  2:{ previous_failed (TypeError CannotConvert)
        [Previous.Call Previous.PullsListFiles None;
         Previous.Call
           (Previous.ChatCompletionsCreate (map filename files)) None]. }
  destruct (Previous.issues_createComment services feedback) as [e4|] eqn:H4;
    simpl.
  { previous_failed e4
      [Previous.Call Previous.PullsListFiles None;
       Previous.Call
         (Previous.ChatCompletionsCreate (map filename files)) None;
       Previous.Info (Previous.Feedback feedback);
       Previous.Call (Previous.IssuesCreateComment feedback) (Some e4)].
    injection Hin as <- <-. split; [reflexivity|]. exists files. auto. }
  left. exists files, feedback. split; [|reflexivity].
  repeat split; assumption.
Qed.

Lemma previous_rest_silent (rest : list Previous.event) ev :
  Forall (fun ev => match ev with
                    | Previous.SetOutput _ _ | Previous.SetFailed _ => False
                    | _ => True
                    end) rest ->
  In ev rest ->
  match ev with
  | Previous.SetOutput _ _ | Previous.SetFailed _ => False
  | _ => True
  end.
Proof. intros H Hin. rewrite Forall_forall in H. exact (H _ Hin). Qed.

(** X20. The previous version reports success exactly when every stage
    succeeds -- the client, the list of files, the completion, the log
    line with the answer and the comment -- and then it has made one
    completion call, on the names of the changed files alone, and posted
    one discussion comment, whose body is the model's answer as it came. *)
Theorem previous_run_succeeds_iff_all_stages_do cfg services :
  In (Previous.SetOutput (str "success") (str "true"))
     (Previous.trace cfg services) <->
  exists files feedback,
    Previous.all_succeed services files feedback /\
    Previous.trace cfg services
    = [Previous.Info (Previous.OpenAIKey (openai_api_key cfg));
       Previous.Info (Previous.GitHubToken (github_token cfg));
       Previous.Info (Previous.PRNumber (github_pr_id cfg));
       Previous.Call Previous.PullsListFiles None;
       Previous.Call
         (Previous.ChatCompletionsCreate (map filename files)) None;
       Previous.Info (Previous.Feedback feedback);
       Previous.Call (Previous.IssuesCreateComment feedback) None;
       Previous.Info Previous.Completed;
       Previous.SetOutput (str "success") (str "true")].
Proof.
  split.
  - intros Hin.
    destruct (previous_trace_cases cfg services)
      as [Hok|(err & rest & E & Hsil & _)]; [exact Hok|].
    exfalso. rewrite E in Hin.
    destruct Hin as [H|[H|[H|Hin]]]; try discriminate.
    apply in_app_or in Hin. destruct Hin as [Hin|[H|[]]];
      [exact (previous_rest_silent _ _ Hsil Hin)|discriminate].
  - intros (files & feedback & _ & ->). do 8 right. left. reflexivity.
Qed.

(** X21. In the previous version a run that fails never reports success
    as well, and it has submitted a comment only when the files were
    listed and the model answered: the comment is that answer, and its
    refusal is the failure the run reports. *)
Theorem previous_run_failure cfg services err :
  In (Previous.SetFailed err) (Previous.trace cfg services) ->
  ~ In (Previous.SetOutput (str "success") (str "true"))
       (Previous.trace cfg services) /\
  forall body failure,
    In (Previous.Call (Previous.IssuesCreateComment body) failure)
       (Previous.trace cfg services) ->
    failure = Some err /\
    exists files,
      Previous.pulls_listFiles services = inr files /\
      Previous.chat_completions_create services (map filename files)
      = inr body.
Proof.
  intros Hin.
  destruct (previous_trace_cases cfg services)
    as [(files & feedback & _ & E)|(err' & rest & E & Hsil & Hc)];
    rewrite E in *.
  - exfalso. repeat (destruct Hin as [H|Hin]; [discriminate|]). destruct Hin.
  - assert (Herr : err = err').
    { destruct Hin as [H|[H|[H|Hin]]]; try discriminate.
      apply in_app_or in Hin. destruct Hin as [Hin|[H|[]]].
      - exfalso. exact (previous_rest_silent _ _ Hsil Hin).
      - injection H as <-. reflexivity. }
    subst err'. split.
    + intros [H|[H|[H|Hs]]]; try discriminate.
      apply in_app_or in Hs. destruct Hs as [Hs|[H|[]]];
        [exact (previous_rest_silent _ _ Hsil Hs)|discriminate].
    + intros body failure [H|[H|[H|Hb]]]; try discriminate.
      apply in_app_or in Hb. destruct Hb as [Hb|[H|[]]]; [|discriminate].
      exact (Hc _ _ Hb).
Qed.

Lemma previous_run_failure_witness :
  ~ In (Previous.SetOutput (str "success") (str "true"))
       (Previous.trace example_inputs
          (Previous.refusing_services rate_limited)) /\
  forall body failure,
    In (Previous.Call (Previous.IssuesCreateComment body) failure)
       (Previous.trace example_inputs
          (Previous.refusing_services rate_limited)) ->
    failure = Some rate_limited /\
    exists files,
      Previous.pulls_listFiles
        (Previous.refusing_services rate_limited) = inr files /\
      Previous.chat_completions_create
        (Previous.refusing_services rate_limited) (map filename files)
      = inr body.
Proof.
  apply (previous_run_failure example_inputs
           (Previous.refusing_services rate_limited) rate_limited).
  vm_compute. do 7 right. left. reflexivity.
Defined.

(** X22. The previous version writes the API key and the access token to
    the log first thing in every run, whether the run then succeeds or
    fails. *)
Theorem previous_run_logs_its_secrets cfg services :
  exists rest,
    Previous.trace cfg services
    = Previous.Info (Previous.OpenAIKey (openai_api_key cfg))
      :: Previous.Info (Previous.GitHubToken (github_token cfg))
      :: rest.
Proof.
  destruct (previous_trace_cases cfg services)
    as [(files & feedback & _ & ->)|(err & rest & -> & _)];
    eexists; reflexivity.
Qed.

(** ** Segments in prose *)

Lemma scan_join_segments parts tail :
  Forall (fun part => ~ In 123 (fst part) /\ ~ In 125 (snd part)) parts ->
  scan None (join_segments parts tail) = map braced parts ++ scan None tail.
Proof.
  induction 1 as [|[prose inside] parts [Hp Hi] _ IH]; [reflexivity|].
  simpl in Hp, Hi.
  change (join_segments ((prose, inside) :: parts) tail)
    with (prose ++ (123 :: inside ++ [125]) ++ join_segments parts tail).
  rewrite (scan_skip _ _ Hp).
  replace ((123 :: inside ++ [125]) ++ join_segments parts tail)
    with (123 :: inside ++ 125 :: join_segments parts tail)
    by (simpl; rewrite <- app_assoc; reflexivity).
  change (scan (Some [123]) (inside ++ 125 :: join_segments parts tail)
          = map braced ((prose, inside) :: parts) ++ scan None tail).
  rewrite (scan_inside [123] inside _ Hi), IH. reflexivity.
Qed.

(** X23. A textual answer made of flat JSON objects, each of which parses
    and passes the validation, with prose free of opening braces before
    each of them and prose without a match at the end, leads to one inline
    comment per object, in their order, and to no discussion comment:
    the prose around the objects is ignored. *)
Theorem objects_in_prose_are_each_submitted cfg services pr parts tail fss :
  model_answers cfg services pr (JStr (join_segments parts tail)) ->
  parts <> [] ->
  Forall (fun part => ~ In 123 (fst part) /\ ~ In 125 (snd part)) parts ->
  string_match tail = None ->
  Forall2 (fun part fs =>
             JSON_parse (braced part) = inr (JObj fs) /\
             has_required_fields (JObj fs) = inr true) parts fss ->
  Forall2 (fun fs c => request_of pr (JObj fs) = inr c)
          fss (inline_comments (trace cfg services)) /\
  discussion_comments (trace cfg services) = [] /\
  reported (trace cfg services) = success.
Proof.
  intros Ha Hne Hparts Htail Hvalid.
  assert (Hm : string_match (join_segments parts tail)
               = Some (map braced parts)).
  { unfold string_match in *. rewrite (scan_join_segments _ _ Hparts).
    destruct (scan None tail); [|discriminate]. rewrite app_nil_r.
    destruct parts; [congruence|reflexivity]. }
  destruct (trace_segments_summary _ _ _ _ _ Ha Hm) as (-> & Hd & Hr & _).
  split; [|split; assumption].
  clear -Hvalid. induction Hvalid as [|part fs parts fss [HP HV] _ IH];
    [constructor|].
  simpl. rewrite (drafts_of_segment_obj _ _ _ HP).
  rewrite has_required_fields_obj in HV. injection HV as ->.
  simpl. constructor; [apply request_of_obj|exact IH].
Qed.

Lemma objects_in_prose_witness :
  Forall2 (fun fs c => request_of example_pull (JObj fs) = inr c)
          [fields_a; fields_a]
          (inline_comments
             (trace example_inputs
                (example_services
                   (JStr (join_segments
                            [(str "First: ",
                              json "'body':'Unused variable','path':'a.py','line':3");
                             (str ", again: ",
                              json "'body':'Unused variable','path':'a.py','line':3")]
                            (str " (end)")))
                   accept_all))) /\
  discussion_comments
    (trace example_inputs
       (example_services
          (JStr (join_segments
                   [(str "First: ",
                     json "'body':'Unused variable','path':'a.py','line':3");
                    (str ", again: ",
                     json "'body':'Unused variable','path':'a.py','line':3")]
                   (str " (end)")))
          accept_all)) = [] /\
  reported
    (trace example_inputs
       (example_services
          (JStr (join_segments
                   [(str "First: ",
                     json "'body':'Unused variable','path':'a.py','line':3");
                    (str ", again: ",
                     json "'body':'Unused variable','path':'a.py','line':3")]
                   (str " (end)")))
          accept_all)) = success.
Proof.
  apply (objects_in_prose_are_each_submitted example_inputs
           (example_services
              (JStr (join_segments
                       [(str "First: ",
                         json "'body':'Unused variable','path':'a.py','line':3");
                        (str ", again: ",
                         json "'body':'Unused variable','path':'a.py','line':3")]
                       (str " (end)")))
              accept_all)
           example_pull
           [(str "First: ",
             json "'body':'Unused variable','path':'a.py','line':3");
            (str ", again: ",
             json "'body':'Unused variable','path':'a.py','line':3")]
           (str " (end)") [fields_a; fields_a]).
  - apply example_answers.
  - discriminate.
  - repeat constructor; vm_compute; intuition discriminate.
  - reflexivity.
  - repeat constructor.
Defined.

(** ** Segments as the response writes them *)




(** ** One valid and one malformed segment *)




